(** * JExTile: navigation-and-editing engine

    A shallow embedding of the state logic of [src/App.tsx] (the [App]
    component: load, history, undo/redo) and of the [JsonGrid] component
    (path resolution, itemisation, reorder, delete, selection clamp), with
    the properties the specification states about them. *)

From stdpp Require Import base numbers list strings gmap sorting pretty.
From Stdlib Require Import ZArith Lia Ascii.

Set Warnings "-register-all,-clear-no-such-hyp".

Local Open Scope string_scope.
Local Open Scope Z_scope.
Local Open Scope nat_scope.
Local Open Scope list_scope.

(** ** JavaScript values

    The values that flow through the component: JSON values as produced by
    [JSON.parse], plus [undefined], which the code meets when it reads a
    missing property.  Objects are association lists in property
    enumeration order.  Numbers are carried as integers: the code never
    computes on the numbers of the document. *)

Inductive JsonValue : Type :=
| JUndefined
| JNull
| JBool (b : bool)
| JNumber (n : Z)
| JString (s : string)
| JArray (xs : list JsonValue)
| JObject (kvs : list (string * JsonValue)).

(** [typeof v] *)
Definition typeof (v : JsonValue) : string :=
  match v with
  | JUndefined => "undefined"
  | JNull => "object"
  | JBool _ => "boolean"
  | JNumber _ => "number"
  | JString _ => "string"
  | JArray _ => "object"
  | JObject _ => "object"
  end.

(** [Array.isArray(v)] *)
Definition isArray (v : JsonValue) : bool :=
  match v with JArray _ => true | _ => false end.

(** [v === null] and [v === undefined] *)
Definition is_null (v : JsonValue) : bool :=
  match v with JNull => true | _ => false end.

Definition is_undefined (v : JsonValue) : bool :=
  match v with JUndefined => true | _ => false end.

(** JavaScript truthiness, as used by [!x] and [x && ...]. *)
Definition truthy (v : JsonValue) : bool :=
  match v with
  | JUndefined | JNull => false
  | JBool b => b
  | JNumber n => negb (n =? 0)%Z
  | JString s => negb (String.eqb s "")
  | JArray _ | JObject _ => true
  end.

(** ** History (component [App]) *)

Definition MAX_HISTORY : nat := 50.

Record History : Type := mkHistory {
  past : list JsonValue;
  present : JsonValue;
  future : list JsonValue
}.

Definition emptyHistory : History :=
  {| past := []; present := JNull; future := [] |}.

(** [arr.shift()]: the array without its first element. *)
Definition array_shift {A} (arr : list A) : list A := drop 1 arr.

(** [handleDataUpdate], the updater passed to [setHistory]. *)
Definition handleDataUpdate (newData : JsonValue) (curr : History) : History :=
  if negb (truthy (present curr)) then curr
  else
    let newPast := past curr ++ [present curr] in
    let newPast :=
      if MAX_HISTORY <? length newPast then array_shift newPast else newPast in
    {| past := newPast; present := newData; future := [] |}.

(** [undo] *)
Definition undo (curr : History) : History :=
  if length (past curr) =? 0 then curr
  else
    let previous := default JUndefined (past curr !! (length (past curr) - 1)) in
    let newPast := take (length (past curr) - 1) (past curr) in
    {| past := newPast; present := previous;
       future := present curr :: future curr |}.

(** [redo] *)
Definition redo (curr : History) : History :=
  if length (future curr) =? 0 then curr
  else
    let next := default JUndefined (future curr !! 0) in
    let newFuture := drop 1 (future curr) in
    {| past := past curr ++ [present curr]; present := next;
       future := newFuture |}.

Definition canUndo (h : History) : bool := 0 <? length (past h).
Definition canRedo (h : History) : bool := 0 <? length (future h).

(** ** Loading (component [App]) *)

Record Meta : Type := mkMeta { meta_name : string; meta_size : N }.

Record App : Type := mkApp {
  meta : option Meta;
  history : History;
  error : option string
}.

Definition initialApp : App :=
  {| meta := None; history := emptyHistory; error := None |}.

Definition load_error_message : string :=
  "The JSON file does not contain a valid list of objects to display.".

(** [typeof item === 'object' && item !== null] *)
Definition is_nonnull_object (item : JsonValue) : bool :=
  String.eqb (typeof item) "object" && negb (is_null item).

(** The predicate of the [find] over [Object.values(json)]:
    [Array.isArray(val) && val.length > 0 && typeof val[0] === 'object']. *)
Definition is_possibleArray (val : JsonValue) : bool :=
  match val with
  | JArray xs =>
      (0 <? length xs) &&
      String.eqb (typeof (default JUndefined (xs !! 0))) "object"
  | _ => false
  end.

(** [arr.find(p)] *)
Definition array_find {A} (p : A → bool) (arr : list A) : option A :=
  List.find p arr.

(** [arr.filter(p)] *)
Definition array_filter {A} (p : A → bool) (arr : list A) : list A :=
  List.filter p arr.

(** The array [dataToDisplay] computed by [processJsonData]. *)
Definition dataToDisplay (json : JsonValue) : list JsonValue :=
  match json with
  | JArray xs => array_filter is_nonnull_object xs
  | JObject kvs =>
      match array_find is_possibleArray (kvs.*2) with
      | Some (JArray possibleArray) => possibleArray
      | _ => [json]
      end
  | _ => []
  end.

(** [processJsonData] *)
Definition processJsonData (json : JsonValue) (name : string) (size : N)
    (app : App) : App :=
  let data := dataToDisplay json in
  if length data =? 0 then
    {| meta := meta app; history := history app;
       error := Some load_error_message |}
  else
    {| meta := Some (mkMeta name size);
       history := {| past := []; present := JArray data; future := [] |};
       error := None |}.

(** [handleReset] *)
Definition handleReset (app : App) : App :=
  {| meta := None; history := emptyHistory; error := None |}.

Definition set_history (f : History → History) (app : App) : App :=
  {| meta := meta app; history := f (history app); error := error app |}.

(** The events of [App] that touch the history. *)
Inductive AppEvent : Type :=
| EvLoad (json : JsonValue) (name : string) (size : N)
| EvReset
| EvUpdate (newData : JsonValue)
| EvUndo
| EvRedo.

Definition app_step (ev : AppEvent) (app : App) : App :=
  match ev with
  | EvLoad json name size => processJsonData json name size app
  | EvReset => handleReset app
  | EvUpdate newData => set_history (handleDataUpdate newData) app
  | EvUndo => set_history undo app
  | EvRedo => set_history redo app
  end.

Inductive app_reachable : App → Prop :=
| app_reach_init : app_reachable initialApp
| app_reach_step ev app :
    app_reachable app → app_reachable (app_step ev app).

(** ** Property access (component [JsonGrid])

    The embedding covers own data properties.  Inherited and built-in
    properties ([length], prototype methods, [__proto__]) are outside it,
    and a hole of a sparse array is represented by [undefined]. *)

(** A path segment and an item name: [string | number]. *)
Inductive Name : Type :=
| NKey (k : string)
| NIdx (i : nat).

(** [String(name)] *)
Definition String_of_name (n : Name) : string :=
  match n with
  | NKey k => k
  | NIdx i => pretty i
  end.

Definition digit_of_ascii (c : ascii) : option N :=
  let n := N_of_ascii c in
  if ((48 <=? n) && (n <=? 57))%N then Some (n - 48)%N else None.

Fixpoint parse_digits (acc : N) (s : string) : option N :=
  match s with
  | EmptyString => Some acc
  | String c s' =>
      match digit_of_ascii c with
      | Some d => parse_digits (10 * acc + d)%N s'
      | None => None
      end
  end.

(** A property key is an array index when it is the canonical decimal
    form of an integer below [2^32 - 1]. *)
Definition array_index_of_key (k : string) : option nat :=
  match k with
  | EmptyString => None
  | _ =>
      match parse_digits 0%N k with
      | Some n =>
          if String.eqb (pretty n) k && (n <? 2 ^ 32 - 1)%N
          then Some (N.to_nat n) else None
      | None => None
      end
  end.

Definition array_index_of_name (n : Name) : option nat :=
  match n with
  | NIdx i => Some i
  | NKey k => array_index_of_key k
  end.

(** Lookup of an own property of an object. *)
Fixpoint obj_lookup (k : string) (kvs : list (string * JsonValue))
    : option JsonValue :=
  match kvs with
  | [] => None
  | (k', v) :: rest => if String.eqb k' k then Some v else obj_lookup k rest
  end.

Definition obj_has (k : string) (kvs : list (string * JsonValue)) : bool :=
  match obj_lookup k kvs with Some _ => true | None => false end.

Fixpoint obj_replace (k : string) (v : JsonValue)
    (kvs : list (string * JsonValue)) : list (string * JsonValue) :=
  match kvs with
  | [] => []
  | (k', v') :: rest =>
      if String.eqb k' k then (k', v) :: rest
      else (k', v') :: obj_replace k v rest
  end.

(** Position of a new property: integer keys come first, in ascending
    numeric order; every other key goes to the end. *)
Fixpoint obj_insert_index (i : nat) (k : string) (v : JsonValue)
    (kvs : list (string * JsonValue)) : list (string * JsonValue) :=
  match kvs with
  | [] => [(k, v)]
  | (k', v') :: rest =>
      match array_index_of_key k' with
      | Some j =>
          if j <? i then (k', v') :: obj_insert_index i k v rest
          else (k, v) :: (k', v') :: rest
      | None => (k, v) :: (k', v') :: rest
      end
  end.

(** [o[k] = v] on an object. *)
Definition obj_set (k : string) (v : JsonValue)
    (kvs : list (string * JsonValue)) : list (string * JsonValue) :=
  if obj_has k kvs then obj_replace k v kvs
  else
    match array_index_of_key k with
    | Some i => obj_insert_index i k v kvs
    | None => kvs ++ [(k, v)]
    end.

(** [delete o[k]] *)
Definition obj_delete (k : string) (kvs : list (string * JsonValue))
    : list (string * JsonValue) :=
  List.filter (λ kv, negb (String.eqb kv.1 k)) kvs.

(** [arr[i] = v] on an array: past the end the array grows. *)
Definition array_set (i : nat) (v : JsonValue) (xs : list JsonValue)
    : list JsonValue :=
  if i <? length xs then <[i:=v]> xs
  else xs ++ replicate (i - length xs) JUndefined ++ [v].

Fixpoint chars_of_string (i : nat) (s : string) : list (string * JsonValue) :=
  match s with
  | EmptyString => []
  | String c s' => (pretty i, JString (String c EmptyString)) :: chars_of_string (S i) s'
  end.

(** [obj[key]] *)
Definition get_prop (obj : JsonValue) (key : Name) : JsonValue :=
  match obj with
  | JArray xs =>
      match array_index_of_name key with
      | Some i => default JUndefined (xs !! i)
      | None => JUndefined
      end
  | JObject kvs => default JUndefined (obj_lookup (String_of_name key) kvs)
  | JString s =>
      match array_index_of_name key with
      | Some i =>
          match String.get i s with
          | Some c => JString (String c EmptyString)
          | None => JUndefined
          end
      | None => JUndefined
      end
  | _ => JUndefined
  end.

(** [Array.isArray(obj) ? [...obj] : { ...obj }] *)
Definition clone_level (obj : JsonValue) : JsonValue :=
  match obj with
  | JArray xs => JArray xs
  | JObject kvs => JObject kvs
  | JString s => JObject (chars_of_string 0 s)
  | _ => JObject []
  end.

(** [copy[key] = v], for the [copy] made by [clone_level].  A non-index
    key on an array adds a named property, which no array operation,
    [Array.isArray] or [JSON.stringify] sees: the array is unchanged. *)
Definition set_prop (copy : JsonValue) (key : Name) (v : JsonValue) : JsonValue :=
  match copy with
  | JArray xs =>
      match array_index_of_name key with
      | Some i => JArray (array_set i v xs)
      | None => JArray xs
      end
  | JObject kvs => JObject (obj_set (String_of_name key) v kvs)
  | other => other
  end.

(** [typeof rest[0] === 'number'] *)
Definition head_is_number (rest : list Name) : bool :=
  match rest with
  | NIdx _ :: _ => true
  | _ => false
  end.

(** [setDeep], the helper of [updateDataAtCurrentPath]. *)
Fixpoint setDeep (obj : JsonValue) (targetPath : list Name) (value : JsonValue)
    : JsonValue :=
  match targetPath with
  | [] => value
  | head :: rest =>
      let copy := clone_level obj in
      let nextObj :=
        if truthy obj && negb (is_undefined (get_prop obj head))
        then get_prop obj head
        else if head_is_number rest then JArray [] else JObject [] in
      set_prop copy head (setDeep nextObj rest value)
  end.

(** The loop of the [currentLevelData] memo. *)
Fixpoint resolvePath (current : JsonValue) (path : list Name) : JsonValue :=
  match path with
  | [] => current
  | key :: rest =>
      if truthy current && String.eqb (typeof current) "object"
      then resolvePath (get_prop current key) rest
      else JNull
  end.

(** ** Items and filtering *)

Record Item : Type := mkItem { name : Name; value : JsonValue }.

(** The [allItems] memo, as a function of [currentLevelData]. *)
Definition itemize (currentLevelData : JsonValue) : list Item :=
  if negb (truthy currentLevelData) then []
  else
    match currentLevelData with
    | JArray xs => imap (λ idx val, {| name := NIdx idx; value := val |}) xs
    | JObject kvs => (λ kv, {| name := NKey kv.1; value := kv.2 |}) <$> kvs
    | _ => []
    end.

(** The string functions of the JavaScript runtime that the filter calls. *)
Class JsStrings : Type := {
  toLowerCase : string → string;
  JSON_stringify : JsonValue → string
}.

Fixpoint String_startsWith (s prefix : string) : bool :=
  match prefix, s with
  | EmptyString, _ => true
  | String c p', String d s' => Ascii.eqb c d && String_startsWith s' p'
  | String _ _, EmptyString => false
  end.

(** [s.includes(sub)] *)
Fixpoint String_includes (s sub : string) : bool :=
  String_startsWith s sub ||
  match s with
  | EmptyString => false
  | String _ s' => String_includes s' sub
  end.

(** The [filteredData] memo. *)
Definition filterItems `{JsStrings} (allItems : list Item) (searchTerm : string)
    : list Item :=
  if negb (String.eqb searchTerm "") then
    let lowerTerm := toLowerCase searchTerm in
    array_filter (λ item,
      String_includes (toLowerCase (String_of_name (name item))) lowerTerm ||
      String_includes (toLowerCase (JSON_stringify (value item))) lowerTerm)
      allItems
  else allItems.

(** ** State of the application

    [Set<number>] is a finite set of naturals: the code only tests
    membership, sorts the elements, or takes their minimum or maximum, so
    the iteration order of the set is never observed. *)

Record SelectedItemState : Type := mkSelectedItem {
  sel_data : JsonValue;
  sel_name : Name;
  fullPath : list Name
}.

Record DragData : Type := mkDragData {
  sourceIndex : nat;
  indicesToMove : gset nat;
  itemsSnapshot : list Item
}.

(** The state hooks and refs of [JsonGrid].  [pathIdentity] stands for the
    identity of the [path] array: every [setPath] installs a new array, and
    the dependency check of the path effect compares identities. *)
Record Grid : Type := mkGrid {
  searchTerm : string;
  selectedItem : option SelectedItemState;
  path : list Name;
  pathIdentity : nat;
  focusedIndex : option nat;
  selectedIndices : gset nat;
  anchorIndexRef : option nat;
  draggedIndex : option nat;
  dropTargetIndex : option Z;
  dragDataRef : option DragData;
  dropTargetRef : option Z
}.

Definition initialGrid : Grid :=
  {| searchTerm := ""; selectedItem := None; path := []; pathIdentity := 0;
     focusedIndex := None; selectedIndices := ∅; anchorIndexRef := None;
     draggedIndex := None; dropTargetIndex := None; dragDataRef := None;
     dropTargetRef := None |}.

(** The whole state: [App], the mounted [JsonGrid], and the lines written
    with [console.error]. *)
Record State : Type := mkState {
  app : App;
  grid : Grid;
  console_errors : list string
}.

Definition initialState : State :=
  {| app := initialApp; grid := initialGrid; console_errors := [] |}.

Definition with_app (f : App → App) (s : State) : State :=
  {| app := f (app s); grid := grid s; console_errors := console_errors s |}.

Definition with_grid (f : Grid → Grid) (s : State) : State :=
  {| app := app s; grid := f (grid s); console_errors := console_errors s |}.

Definition console_error (msg : string) (s : State) : State :=
  {| app := app s; grid := grid s;
     console_errors := console_errors s ++ [msg] |}.

Definition setSearchTerm (v : string) : State → State :=
  with_grid (λ g, mkGrid v (selectedItem g) (path g) (pathIdentity g)
    (focusedIndex g) (selectedIndices g) (anchorIndexRef g) (draggedIndex g)
    (dropTargetIndex g) (dragDataRef g) (dropTargetRef g)).

Definition setSelectedItem (v : option SelectedItemState) : State → State :=
  with_grid (λ g, mkGrid (searchTerm g) v (path g) (pathIdentity g)
    (focusedIndex g) (selectedIndices g) (anchorIndexRef g) (draggedIndex g)
    (dropTargetIndex g) (dragDataRef g) (dropTargetRef g)).

Definition setPath (v : list Name) : State → State :=
  with_grid (λ g, mkGrid (searchTerm g) (selectedItem g) v (S (pathIdentity g))
    (focusedIndex g) (selectedIndices g) (anchorIndexRef g) (draggedIndex g)
    (dropTargetIndex g) (dragDataRef g) (dropTargetRef g)).

Definition setFocusedIndex (v : option nat) : State → State :=
  with_grid (λ g, mkGrid (searchTerm g) (selectedItem g) (path g) (pathIdentity g)
    v (selectedIndices g) (anchorIndexRef g) (draggedIndex g)
    (dropTargetIndex g) (dragDataRef g) (dropTargetRef g)).

Definition setSelectedIndices (v : gset nat) : State → State :=
  with_grid (λ g, mkGrid (searchTerm g) (selectedItem g) (path g) (pathIdentity g)
    (focusedIndex g) v (anchorIndexRef g) (draggedIndex g)
    (dropTargetIndex g) (dragDataRef g) (dropTargetRef g)).

Definition set_anchorIndexRef (v : option nat) : State → State :=
  with_grid (λ g, mkGrid (searchTerm g) (selectedItem g) (path g) (pathIdentity g)
    (focusedIndex g) (selectedIndices g) v (draggedIndex g)
    (dropTargetIndex g) (dragDataRef g) (dropTargetRef g)).

Definition setDraggedIndex (v : option nat) : State → State :=
  with_grid (λ g, mkGrid (searchTerm g) (selectedItem g) (path g) (pathIdentity g)
    (focusedIndex g) (selectedIndices g) (anchorIndexRef g) v
    (dropTargetIndex g) (dragDataRef g) (dropTargetRef g)).

Definition setDropTargetIndex (v : option Z) : State → State :=
  with_grid (λ g, mkGrid (searchTerm g) (selectedItem g) (path g) (pathIdentity g)
    (focusedIndex g) (selectedIndices g) (anchorIndexRef g) (draggedIndex g)
    v (dragDataRef g) (dropTargetRef g)).

Definition set_dragDataRef (v : option DragData) : State → State :=
  with_grid (λ g, mkGrid (searchTerm g) (selectedItem g) (path g) (pathIdentity g)
    (focusedIndex g) (selectedIndices g) (anchorIndexRef g) (draggedIndex g)
    (dropTargetIndex g) v (dropTargetRef g)).

Definition set_dropTargetRef (v : option Z) : State → State :=
  with_grid (λ g, mkGrid (searchTerm g) (selectedItem g) (path g) (pathIdentity g)
    (focusedIndex g) (selectedIndices g) (anchorIndexRef g) (draggedIndex g)
    (dropTargetIndex g) (dragDataRef g) v).

(** [file.data]: the [data] of [parsedFile], that is [history.present]. *)
Definition file_data (s : State) : JsonValue := present (history (app s)).

(** The [parsedFile] memo of [App]; [JsonGrid] is rendered when it is not
    null. *)
Definition parsedFile (s : State) : option (Meta * JsonValue) :=
  match meta (app s) with
  | Some m => if truthy (file_data s) then Some (m, file_data s) else None
  | None => None
  end.

Definition currentLevelData (s : State) : JsonValue :=
  resolvePath (file_data s) (path (grid s)).

Definition allItems (s : State) : list Item := itemize (currentLevelData s).

Definition filteredData `{JsStrings} (s : State) : list Item :=
  filterItems (allItems s) (searchTerm (grid s)).

Definition currentData `{JsStrings} (s : State) : list Item := filteredData s.

(** [onUpdate], which is [handleDataUpdate] of [App]. *)
Definition onUpdate (newData : JsonValue) : State → State :=
  with_app (set_history (handleDataUpdate newData)).

(** [updateDataAtCurrentPath] *)
Definition updateDataAtCurrentPath (newData : JsonValue) (s : State) : State :=
  let newRoot := setDeep (file_data s) (path (grid s)) newData in
  if (length (path (grid s)) =? 0) && negb (isArray newRoot) then
    console_error "Root update failed validation: must be an array." s
  else onUpdate newRoot s.

(** ** Array helpers of the reorder and delete handlers *)

(** [Array.from(set).sort((a, b) => a - b)] and [sort((a, b) => b - a)] *)
Definition sort_ascending (l : list nat) : list nat := merge_sort (≤) l.
Definition sort_descending (l : list nat) : list nat :=
  merge_sort (flip (≤)) l.

(** [set.has(i)] *)
Definition set_has (X : gset nat) (i : nat) : bool := bool_decide (i ∈ X).

(** [arr.filter((x, i) => p(x, i))] *)
Fixpoint filteri_from {A} (p : A → nat → bool) (i : nat) (arr : list A)
    : list A :=
  match arr with
  | [] => []
  | x :: rest =>
      if p x i then x :: filteri_from p (S i) rest
      else filteri_from p (S i) rest
  end.

Definition array_filteri {A} (p : A → nat → bool) (arr : list A) : list A :=
  filteri_from p 0 arr.

(** [arr.splice(start, 0, ...items)] on a copy: the array with [items]
    inserted at [start]; a negative [start] counts from the end. *)
Definition array_splice_insert {A} (arr : list A) (start : Z) (items : list A)
    : list A :=
  let len := Z.of_nat (length arr) in
  let actualStart :=
    if (start <? 0)%Z then Z.max (len + start) 0 else Z.min start len in
  take (Z.to_nat actualStart) arr ++ items ++ drop (Z.to_nat actualStart) arr.

(** [arr.splice(idx, 1)] *)
Definition array_splice_remove {A} (idx : nat) (arr : list A) : list A :=
  delete idx arr.

(** [newItems.map(i => i.value)]: reading [value] of [undefined] throws, which
    is [None] here. *)
Definition map_values (newItems : list (option Item)) : option (list JsonValue) :=
  mapM (λ i, value <$> i) newItems.

(** The [forEach] that rebuilds an object from the items; [None] when it
    throws on an [undefined] item. *)
Definition rebuild_object (newItems : list (option Item))
    : option (list (string * JsonValue)) :=
  foldl (λ newObj item,
           match newObj, item with
           | Some o, Some it => Some (obj_set (String_of_name (name it)) (value it) o)
           | _, _ => None
           end)
        (Some []) newItems.

(** The loop [for (i = 0; i < n; i++) newSet.add(insertionIndex + i)]. *)
Definition selection_block (insertionIndex : Z) (n : nat) : gset nat :=
  foldl (λ newSet i, newSet ∪ {[ Z.to_nat (insertionIndex + Z.of_nat i) ]})
        ∅ (seq 0 n).

(** The loop [for (i = start; i <= end; i++) newSet.add(i)]. *)
Definition range_set (start end_ : nat) : gset nat :=
  foldl (λ newSet i, newSet ∪ {[ i ]}) ∅ (seq start (S end_ - start)).

(** [Math.min(...l)] and [Math.max(...l)]; [None] stands for the infinite
    result on an empty list. *)
Definition Math_min (l : list nat) : option nat :=
  match l with
  | [] => None
  | x :: rest => Some (foldl Nat.min x rest)
  end.

Definition Math_max (l : list nat) : option nat :=
  match l with
  | [] => None
  | x :: rest => Some (foldl Nat.max x rest)
  end.

(** [Number(item.name)]; [None] stands for [NaN].  In the array branch every
    item name is a number; of the strings only canonical decimals are
    converted. *)
Definition Number_of_name (n : Name) : option nat :=
  match n with
  | NIdx i => Some i
  | NKey k => array_index_of_key k
  end.

(** A handler either returns or throws a [TypeError]; both carry the state
    it leaves. *)
Inductive Outcome : Type :=
| Returned (s : State)
| Threw (s : State).

Definition outcome_state (o : Outcome) : State :=
  match o with Returned s => s | Threw s => s end.

(** ** Reorder *)

(** [moveItemsDirect] *)
Definition moveItemsDirect (indicesToMove : gset nat) (targetIndex : Z)
    (s : State) : Outcome :=
  if negb (String.eqb (searchTerm (grid s)) "") then Returned s
  else
    let indices := sort_ascending (elements indicesToMove) in
    if length indices =? 0 then Returned s
    else
      let itemsToMove := (λ i, allItems s !! i) <$> indices in
      let itemsToStay :=
        array_filteri (λ _ i, negb (set_has indicesToMove i)) (allItems s) in
      let numSelectedBeforeTarget :=
        length (array_filter (λ i, (Z.of_nat i <? targetIndex)%Z) indices) in
      let insertionIndex := (targetIndex - Z.of_nat numSelectedBeforeTarget)%Z in
      let insertionIndex :=
        if (insertionIndex <? 0)%Z then 0%Z else insertionIndex in
      let insertionIndex :=
        if (Z.of_nat (length itemsToStay) <? insertionIndex)%Z
        then Z.of_nat (length itemsToStay) else insertionIndex in
      let newItems :=
        array_splice_insert (Some <$> itemsToStay) insertionIndex itemsToMove in
      let newData :=
        if isArray (currentLevelData s) then JArray <$> map_values newItems
        else JObject <$> rebuild_object newItems in
      match newData with
      | None => Threw s
      | Some newData =>
          let s := updateDataAtCurrentPath newData s in
          let newSet := selection_block insertionIndex (length itemsToMove) in
          let s := setSelectedIndices newSet s in
          let s := setFocusedIndex (Some (Z.to_nat insertionIndex)) s in
          let s := set_anchorIndexRef (Some (Z.to_nat insertionIndex)) s in
          Returned s
      end.

(** [handleMoveItems] *)
Definition handleMoveItems (targetIndex : Z) (s : State) : Outcome :=
  moveItemsDirect (selectedIndices (grid s)) targetIndex s.

(** ** Delete *)

(** [handleDelete].  The indices are naturals, so of the test
    [idx >= 0 && idx < newArray.length] only the upper bound is written. *)
Definition handleDelete `{JsStrings} (targetIndex : option nat) (s : State)
    : State :=
  let localIndicesToDelete :=
    match targetIndex with
    | Some targetIndex =>
        if set_has (selectedIndices (grid s)) targetIndex
        then elements (selectedIndices (grid s))
        else [targetIndex]
    | None =>
        if 0 <? size (selectedIndices (grid s))
        then elements (selectedIndices (grid s))
        else
          match focusedIndex (grid s) with
          | Some focused => [focused]
          | None => []
          end
    end in
  if length localIndicesToDelete =? 0 then s
  else
    let localIndicesToDelete :=
      array_filter (λ i, bool_decide (is_Some (currentData s !! i)))
        localIndicesToDelete in
    if length localIndicesToDelete =? 0 then s
    else
      let itemsToDelete := omap (λ i, currentData s !! i) localIndicesToDelete in
      let newData :=
        match currentLevelData s with
        | JArray xs =>
            let newArray := xs in
            let indicesToDelete :=
              sort_descending (omap (λ item, Number_of_name (name item)) itemsToDelete) in
            JArray (foldl (λ newArray idx,
                             if idx <? length newArray
                             then array_splice_remove idx newArray
                             else newArray)
                          newArray indicesToDelete)
        | other =>
            let newObj :=
              match clone_level other with JObject kvs => kvs | _ => [] end in
            JObject (foldl (λ newObj item,
                              obj_delete (String_of_name (name item)) newObj)
                           newObj itemsToDelete)
        end in
      let s := updateDataAtCurrentPath newData s in
      let s := setSelectedIndices ∅ s in
      let minDeleted := Math_min localIndicesToDelete in
      setFocusedIndex minDeleted s.

(** ** Drag and drop *)

(** [onDragStart]; the callback it hands to [requestAnimationFrame] is run
    with it. *)
Definition onDragStart (index : nat) (s : State) : State :=
  if negb (String.eqb (searchTerm (grid s)) "") then s
  else
    let indicesToMove :=
      if set_has (selectedIndices (grid s)) index
      then selectedIndices (grid s) else {[ index ]} in
    let wasSelected := set_has (selectedIndices (grid s)) index in
    let s := set_dragDataRef
               (Some {| sourceIndex := index; indicesToMove := indicesToMove;
                        itemsSnapshot := allItems s |}) s in
    let s := set_dropTargetRef None s in
    let s :=
      if negb wasSelected then
        let s := setSelectedIndices {[ index ]} s in
        let s := setFocusedIndex (Some index) s in
        set_anchorIndexRef (Some index) s
      else s in
    setDraggedIndex (Some index) s.

(** [onDragOver]; [isAfter] is the result of the pointer test
    [relX > rect.width / 2]. *)
Definition onDragOver (index : nat) (isAfter : bool) (s : State) : State :=
  let newTarget := if isAfter then (Z.of_nat index + 1)%Z else Z.of_nat index in
  let s := setDropTargetIndex (Some newTarget) s in
  set_dropTargetRef (Some newTarget) s.

(** [onDrop] *)
Definition onDrop (s : State) : State := s.

(** The cleanup at the end of [onDragEnd]. *)
Definition dragCleanup (s : State) : State :=
  let s := setDraggedIndex None s in
  let s := setDropTargetIndex None s in
  let s := set_dragDataRef None s in
  set_dropTargetRef None s.

(** [onDragEnd] *)
Definition onDragEnd (s : State) : Outcome :=
  match dragDataRef (grid s), dropTargetRef (grid s) with
  | Some dragData, Some targetIndex =>
      if negb (String.eqb (searchTerm (grid s)) "") then Returned (dragCleanup s)
      else
        let indicesToMove := indicesToMove dragData in
        let itemsSnapshot := itemsSnapshot dragData in
        let indices := sort_ascending (elements indicesToMove) in
        if 0 <? length indices then
          let itemsToMove := (λ i, itemsSnapshot !! i) <$> indices in
          let itemsToStay :=
            array_filteri (λ _ i, negb (set_has indicesToMove i)) itemsSnapshot in
          let numSelectedBeforeTarget :=
            length (array_filter (λ i, (Z.of_nat i <? targetIndex)%Z) indices) in
          let insertionIndex :=
            (targetIndex - Z.of_nat numSelectedBeforeTarget)%Z in
          let insertionIndex :=
            if (insertionIndex <? 0)%Z then 0%Z else insertionIndex in
          let insertionIndex :=
            if (Z.of_nat (length itemsToStay) <? insertionIndex)%Z
            then Z.of_nat (length itemsToStay) else insertionIndex in
          let newItems :=
            array_splice_insert (Some <$> itemsToStay) insertionIndex itemsToMove in
          let newData :=
            if isArray (currentLevelData s) then JArray <$> map_values newItems
            else JObject <$> rebuild_object newItems in
          match newData with
          | None => Threw s
          | Some newData =>
              let s := updateDataAtCurrentPath newData s in
              let newSet := selection_block insertionIndex (length itemsToMove) in
              let s := setSelectedIndices newSet s in
              let s := setFocusedIndex (Some (Z.to_nat insertionIndex)) s in
              let s := set_anchorIndexRef (Some (Z.to_nat insertionIndex)) s in
              Returned (dragCleanup s)
          end
        else Returned (dragCleanup s)
  | _, _ => Returned (dragCleanup s)
  end.

(** ** Selection by pointer *)

(** [handleCardClick] *)
Definition handleCardClick (ctrlOrMeta shiftKey : bool) (index : nat)
    (s : State) : State :=
  if ctrlOrMeta then
    let newSet :=
      if set_has (selectedIndices (grid s)) index
      then selectedIndices (grid s) ∖ {[ index ]}
      else selectedIndices (grid s) ∪ {[ index ]} in
    let s := setSelectedIndices newSet s in
    let s := setFocusedIndex (Some index) s in
    set_anchorIndexRef (Some index) s
  else
    match shiftKey, anchorIndexRef (grid s) with
    | true, Some anchor =>
        let start := Nat.min anchor index in
        let end_ := Nat.max anchor index in
        let s := setSelectedIndices (range_set start end_) s in
        setFocusedIndex (Some index) s
    | _, _ =>
        let s := setSelectedIndices {[ index ]} s in
        let s := setFocusedIndex (Some index) s in
        set_anchorIndexRef (Some index) s
    end.

(** The [onClick] of the container. *)
Definition containerClick (s : State) : State :=
  let s := setFocusedIndex None s in
  setSelectedIndices ∅ s.

(** ** Navigation and the detail modal *)

(** [handleDrillDown] *)
Definition handleDrillDown (key : Name) (val : JsonValue) (s : State) : State :=
  if String.eqb (typeof val) "object" && negb (is_null val) then
    setPath (path (grid s) ++ [key]) s
  else
    setSelectedItem
      (Some {| sel_data := val; sel_name := key;
               fullPath := path (grid s) ++ [key] |}) s.

(** [handleNavigateUp] *)
Definition handleNavigateUp (s : State) : State :=
  if 0 <? length (path (grid s)) then
    setPath (take (length (path (grid s)) - 1) (path (grid s))) s
  else s.

(** The breadcrumb buttons: [setPath([])] and
    [setPath(prev => prev.slice(0, i + 1))]. *)
Definition breadcrumbHome (s : State) : State := setPath [] s.

Definition breadcrumbJump (i : nat) (s : State) : State :=
  setPath (take (i + 1) (path (grid s))) s.

(** The name under which the current level is opened in the modal:
    [path.length > 0 ? path[path.length - 1] : file.name]. *)
Definition currentLevelName (s : State) : Name :=
  match last (path (grid s)) with
  | Some segment => segment
  | None => NKey (default "" (meta_name <$> meta (app s)))
  end.

(** The "View/Edit Source" button, and the [d] key without focus. *)
Definition openCurrentLevel (s : State) : State :=
  setSelectedItem
    (Some {| sel_data := currentLevelData s; sel_name := currentLevelName s;
             fullPath := path (grid s) |}) s.

(** [onDetailsClick] of a card, and the [d] key on the focused item. *)
Definition openItem (item : Item) (s : State) : State :=
  setSelectedItem
    (Some {| sel_data := value item; sel_name := name item;
             fullPath := path (grid s) ++ [name item] |}) s.

(** [handleModalSave] *)
Definition handleModalSave (newData : JsonValue) (s : State) : State :=
  match selectedItem (grid s) with
  | None => s
  | Some selected =>
      let newRoot := setDeep (file_data s) (fullPath selected) newData in
      let s := onUpdate newRoot s in
      setSelectedItem None s
  end.

(** ** Keyboard *)

Record KeyboardEvent : Type := mkKeyboardEvent {
  key : string;
  shiftKey : bool;
  ctrlKey : bool;
  metaKey : bool
}.

(** What the handler reads from the document and the window. *)
Record DomEnv : Type := mkDomEnv {
  isInputActive : bool;
  isTyping : bool;
  innerWidth : nat
}.

Definition key_is (e : KeyboardEvent) (k : string) : bool := String.eqb (key e) k.

Definition is_arrow_key (e : KeyboardEvent) : bool :=
  key_is e "ArrowUp" || key_is e "ArrowDown" ||
  key_is e "ArrowLeft" || key_is e "ArrowRight".

Definition columns (width : nat) : nat :=
  if 1280 <=? width then 4
  else if 1024 <=? width then 3
  else if 768 <=? width then 2
  else 1.

(** The updater passed to [setFocusedIndex] by the arrow keys, with the
    selection and anchor updates it performs. *)
Definition arrowNavigation (e : KeyboardEvent) (cols itemCount : nat)
    (s : State) : State :=
  let prev := focusedIndex (grid s) in
  let nextIndex :=
    match prev with
    | None =>
        if key_is e "ArrowRight" || key_is e "ArrowDown" then 0
        else if key_is e "ArrowLeft" || key_is e "ArrowUp" then itemCount - 1
        else 0
    | Some prev =>
        if key_is e "ArrowRight" then Nat.min (prev + 1) (itemCount - 1)
        else if key_is e "ArrowLeft" then Nat.max (prev - 1) 0
        else if key_is e "ArrowUp" then Nat.max (prev - cols) 0
        else if key_is e "ArrowDown" then Nat.min (prev + cols) (itemCount - 1)
        else prev
    end in
  let s :=
    if shiftKey e then
      let anchor :=
        match anchorIndexRef (grid s) with
        | Some a => a
        | None => match prev with Some p => p | None => nextIndex end
        end in
      let s := set_anchorIndexRef (Some anchor) s in
      let start := Nat.min anchor nextIndex in
      let end_ := Nat.max anchor nextIndex in
      setSelectedIndices (range_set start end_) s
    else
      let s := setSelectedIndices {[ nextIndex ]} s in
      set_anchorIndexRef (Some nextIndex) s in
  setFocusedIndex (Some nextIndex) s.

(** [handleKeyDown] of [JsonGrid] *)
Definition handleKeyDown `{JsStrings} (e : KeyboardEvent) (dom : DomEnv)
    (s : State) : Outcome :=
  if bool_decide (is_Some (selectedItem (grid s))) then Returned s
  else if key_is e "s" && negb (isTyping dom) && negb (ctrlKey e) && negb (metaKey e)
  then Returned s
  else if key_is e "Escape" && isInputActive dom then Returned s
  else if key_is e "Escape" && bool_decide (is_Some (focusedIndex (grid s))) then
    Returned (setSelectedIndices ∅ (setFocusedIndex None s))
  else if (shiftKey e && key_is e "Enter") || (shiftKey e && key_is e "Tab") then
    Returned (handleNavigateUp s)
  else if key_is e "d" && negb (isTyping dom) && negb (ctrlKey e) && negb (metaKey e)
  then
    match focusedIndex (grid s) with
    | Some focused =>
        match currentData s !! focused with
        | Some item => Returned (openItem item s)
        | None => Returned s
        end
    | None => Returned (openCurrentLevel s)
    end
  else if (key_is e "Enter" || key_is e "Tab") && negb (isTyping dom) &&
          bool_decide (is_Some (focusedIndex (grid s))) && negb (shiftKey e)
  then
    match focusedIndex (grid s) ≫= λ focused, currentData s !! focused with
    | Some item => Returned (handleDrillDown (name item) (value item) s)
    | None => Returned s
    end
  else if key_is e "Delete" && negb (isTyping dom) && negb (shiftKey e) &&
          negb (ctrlKey e)
  then Returned (handleDelete None s)
  else if isInputActive dom then Returned s
  else
    let itemCount := length (currentData s) in
    if itemCount =? 0 then Returned s
    else
      let reorder :=
        ctrlKey e && bool_decide (is_Some (focusedIndex (grid s))) &&
        String.eqb (searchTerm (grid s)) "" &&
        (0 <? size (selectedIndices (grid s))) in
      if reorder && (key_is e "ArrowLeft" || key_is e "ArrowUp") then
        match Math_min (elements (selectedIndices (grid s))) with
        | Some minIndex =>
            handleMoveItems (Z.max 0 (Z.of_nat minIndex - 1)) s
        | None => Returned s
        end
      else if reorder && (key_is e "ArrowRight" || key_is e "ArrowDown") then
        match Math_max (elements (selectedIndices (grid s))) with
        | Some maxIndex => handleMoveItems (Z.of_nat maxIndex + 2) s
        | None => Returned s
        end
      else if is_arrow_key e && negb (ctrlKey e) then
        Returned (arrowNavigation e (columns (innerWidth dom)) itemCount s)
      else Returned s.

(** ** Effects *)

(** The effect on [[path]]: reset focus, selection, anchor and search. *)
Definition pathEffect (queued : State) : State :=
  let queued := setFocusedIndex None queued in
  let queued := setSelectedIndices ∅ queued in
  let queued := set_anchorIndexRef None queued in
  setSearchTerm "" queued.

(** The effect on [[currentData.length, focusedIndex]].  It reads the values
    of the render it belongs to ([render]) and its updates are applied to the
    state as already updated by the earlier effects ([queued]). *)
Definition clampEffect `{JsStrings} (render queued : State) : State :=
  match focusedIndex (grid render) with
  | Some focused =>
      let len := length (currentData render) in
      if len =? 0 then
        let queued := setFocusedIndex None queued in
        setSelectedIndices ∅ queued
      else if len <=? focused then
        let queued := setFocusedIndex (Some (len - 1)) queued in
        setSelectedIndices
          (filter (λ i, i < len) (selectedIndices (grid queued))) queued
      else queued
  | None => queued
  end.

Definition focus_eqb (a b : option nat) : bool :=
  match a, b with
  | None, None => true
  | Some x, Some y => x =? y
  | _, _ => false
  end.

(** The effects of one commit: [prev] is the previous render, [cur] the
    render just committed.  An effect runs when one of its dependencies
    changed. *)
Definition effects_pass `{JsStrings} (prev cur : State) : State :=
  let queued := cur in
  let queued :=
    if pathIdentity (grid prev) =? pathIdentity (grid cur) then queued
    else pathEffect queued in
  if (length (currentData prev) =? length (currentData cur)) &&
     focus_eqb (focusedIndex (grid prev)) (focusedIndex (grid cur))
  then queued
  else clampEffect cur queued.

(** The state once the effects have run and the renders they caused have
    run their effects in turn. *)
Definition settle `{JsStrings} (prev cur : State) : State :=
  let next := effects_pass prev cur in
  effects_pass cur next.

(** ** Events *)

Inductive Event : Type :=
| LoadFile (json : JsonValue) (name : string) (size : N)
| ResetApp
| UndoCommand
| RedoCommand
| CardClick (index : nat) (ctrlOrMeta shift : bool)
| CardDoubleClick (index : nat)
| CardDelete (index : nat)
| CardDetails (index : nat)
| DragStart (index : nat)
| DragOver (index : nat) (isAfter : bool)
| DropOnCard
| DragEnd
| ContainerClick
| BreadcrumbHome
| Breadcrumb (i : nat)
| NavigateUp
| ViewSource
| SearchChange (term : string)
| ModalSave (newData : JsonValue)
| ModalClose
| KeyDown (e : KeyboardEvent) (dom : DomEnv).

(** An event of a card names a card that is displayed; the events of
    [JsonGrid] need [JsonGrid] to be rendered. *)
Definition enabled `{JsStrings} (ev : Event) (s : State) : Prop :=
  match ev with
  | LoadFile _ _ _ | ResetApp | UndoCommand | RedoCommand => True
  | CardClick index _ _ | CardDoubleClick index | CardDelete index
  | CardDetails index | DragStart index | DragOver index _ =>
      is_Some (parsedFile s) ∧ index < length (currentData s)
  | Breadcrumb i => is_Some (parsedFile s) ∧ i < length (path (grid s))
  | ModalSave _ | ModalClose =>
      is_Some (parsedFile s) ∧ is_Some (selectedItem (grid s))
  | _ => is_Some (parsedFile s)
  end.

Definition handle `{JsStrings} (ev : Event) (s : State) : Outcome :=
  match ev with
  | LoadFile json name size => Returned (with_app (processJsonData json name size) s)
  | ResetApp => Returned (with_app handleReset s)
  | UndoCommand => Returned (with_app (set_history undo) s)
  | RedoCommand => Returned (with_app (set_history redo) s)
  | CardClick index ctrlOrMeta shift =>
      Returned (handleCardClick ctrlOrMeta shift index s)
  | CardDoubleClick index =>
      match currentData s !! index with
      | Some item => Returned (handleDrillDown (name item) (value item) s)
      | None => Returned s
      end
  | CardDelete index => Returned (handleDelete (Some index) s)
  | CardDetails index =>
      match currentData s !! index with
      | Some item => Returned (openItem item s)
      | None => Returned s
      end
  | DragStart index => Returned (onDragStart index s)
  | DragOver index isAfter => Returned (onDragOver index isAfter s)
  | DropOnCard => Returned (onDrop s)
  | DragEnd => onDragEnd s
  | ContainerClick => Returned (containerClick s)
  | BreadcrumbHome => Returned (containerClick (breadcrumbHome s))
  | Breadcrumb i => Returned (containerClick (breadcrumbJump i s))
  | NavigateUp => Returned (containerClick (handleNavigateUp s))
  | ViewSource => Returned (containerClick (openCurrentLevel s))
  | SearchChange term => Returned (setSearchTerm term s)
  | ModalSave newData => Returned (handleModalSave newData s)
  | ModalClose => Returned (setSelectedItem None s)
  | KeyDown e dom => handleKeyDown e dom s
  end.

(** [JsonGrid] is unmounted, and its state lost, when [parsedFile] is null. *)
Definition unmount_if_closed (s : State) : State :=
  match parsedFile s with
  | Some _ => s
  | None => with_grid (λ _, initialGrid) s
  end.

(** One event: the handler, then the effects. *)
Definition step `{JsStrings} (ev : Event) (s : State) : State :=
  let s1 := unmount_if_closed (outcome_state (handle ev s)) in
  settle s s1.

Inductive reachable `{JsStrings} : State → Prop :=
| reach_init : reachable initialState
| reach_step ev s : reachable s → enabled ev s → reachable (step ev s).

(** ** Font size (component [App]) *)

(** Of [deltaY] the handler reads the sign only. *)
Record WheelEvent : Type := mkWheelEvent {
  wheel_ctrlKey : bool;
  deltaY : Z
}.

(** [handleWheel]: the new value of [fontSize]. *)
Definition handleWheel (e : WheelEvent) (fontSize : Z) : Z :=
  if wheel_ctrlKey e then
    let direction := if (0 <? deltaY e)%Z then (-1)%Z else 1%Z in
    let step := 1%Z in
    Z.min (Z.max 8 (fontSize + direction * step)) 32
  else fontSize.

(** The font size once the events have been handled, from the initial 16. *)
Definition fontSize_after (events : list WheelEvent) : Z :=
  foldl (λ fontSize e, handleWheel e fontSize) 16%Z events.

(** ** Settings store and the body of a card *)

Record Settings : Type := mkSettings {
  showTitle : bool;
  showSubtitle : bool;
  titleKey : string;
  subtitleKey : string
}.

Definition initialSettings : Settings :=
  {| showTitle := false; showSubtitle := false;
     titleKey := "Title"; subtitleKey := "Subtitle" |}.

Definition toggleShowTitle (st : Settings) : Settings :=
  mkSettings (negb (showTitle st)) (showSubtitle st) (titleKey st) (subtitleKey st).

Definition toggleShowSubtitle (st : Settings) : Settings :=
  mkSettings (showTitle st) (negb (showSubtitle st)) (titleKey st) (subtitleKey st).

Definition setTitleKey (key : string) (st : Settings) : Settings :=
  mkSettings (showTitle st) (showSubtitle st) key (subtitleKey st).

Definition setSubtitleKey (key : string) (st : Settings) : Settings :=
  mkSettings (showTitle st) (showSubtitle st) (titleKey st) key.

(** A line of the header of a card.  [foundKey && data[foundKey] && <div>]
    renders the [div] when both are truthy, and the number itself when the
    value is the number 0. *)
Inductive HeaderLine : Type :=
| NoLine
| StyledLine (v : JsonValue)
| BareZero.

(** What [renderBody] of [JsonCard] puts on a card. *)
Inductive CardBody : Type :=
| BodyNull
| BodyPrimitive (data : JsonValue)
| BodyArray (items : list JsonValue) (more : option nat)
| BodyObject (title subtitle : HeaderLine)
             (bodyKeys : list string) (remainingCount : option nat).

Definition headerLine `{JsStrings} (shown : bool) (key : string)
    (fields : list (string * JsonValue)) : HeaderLine :=
  let allKeys := fields.*1 in
  let found :=
    if shown
    then array_find (λ k, String.eqb (toLowerCase k) (toLowerCase key)) allKeys
    else None in
  match found with
  | Some foundKey =>
      if String.eqb foundKey "" then NoLine
      else
        let v := get_prop (JObject fields) (NKey foundKey) in
        if truthy v then StyledLine v
        else match v with JNumber _ => BareZero | _ => NoLine end
  | None => NoLine
  end.

Definition renderBody `{JsStrings} (st : Settings) (data : JsonValue) : CardBody :=
  match data with
  | JNull => BodyNull
  | JArray xs =>
      let items := take 6 xs in
      BodyArray items (if 6 <? length xs then Some (length xs - 6) else None)
  | JObject fields =>
      let allKeys := fields.*1 in
      let bodyKeys := take 6 allKeys in
      let remainingCount := Nat.max 0 (length allKeys - length bodyKeys) in
      BodyObject (headerLine (showTitle st) (titleKey st) fields)
                 (headerLine (showSubtitle st) (subtitleKey st) fields)
                 bodyKeys
                 (if 0 <? remainingCount then Some remainingCount else None)
  | other => BodyPrimitive other
  end.

(** The entries a card body shows, and those it only counts. *)
Definition shown_entries (b : CardBody) : nat :=
  match b with
  | BodyArray items _ => length items
  | BodyObject _ _ bodyKeys _ => length bodyKeys
  | _ => 0
  end.

Definition counted_entries (b : CardBody) : nat :=
  match b with
  | BodyArray _ more => default 0 more
  | BodyObject _ _ _ remainingCount => default 0 remainingCount
  | _ => 0
  end.

(** ** Uploading a file (component [App]) *)

Record RawFileState : Type := mkRawFileState {
  raw_text : string;
  raw_name : string;
  raw_size : N
}.

(** [App] with the state of the raw editor. *)
Record Uploader : Type := mkUploader {
  uploader_app : App;
  rawFileState : option RawFileState
}.

(** What the [FileReader] reports: [onload] with the text, or [onerror]. *)
Inductive ReadResult : Type :=
| ReadLoaded (text : string)
| ReadFailed.

Definition read_error_message : string := "Failed to read the file.".

Definition setError (e : option string) (app : App) : App :=
  {| meta := meta app; history := history app; error := e |}.

Section upload.
(** [JSON.parse]: the parsed value, or nothing when it throws. *)
Variable JSON_parse : string → option JsonValue.

(** [handleFileUpload] together with the callback of the reader that fires;
    what happens between the call and the callback is not modelled. *)
Definition handleFileUpload (name : string) (size : N) (result : ReadResult)
    (u : Uploader) : Uploader :=
  let u := {| uploader_app := setError None (uploader_app u);
              rawFileState := None |} in
  match result with
  | ReadLoaded text =>
      match JSON_parse text with
      | Some json =>
          {| uploader_app := processJsonData json name size (uploader_app u);
             rawFileState := rawFileState u |}
      | None =>
          {| uploader_app := uploader_app u;
             rawFileState := Some (mkRawFileState text name size) |}
      end
  | ReadFailed =>
      {| uploader_app := setError (Some read_error_message) (uploader_app u);
         rawFileState := rawFileState u |}
  end.
End upload.

(** [handleRawSave] *)
Definition handleRawSave (newData : JsonValue) (u : Uploader) : Uploader :=
  match rawFileState u with
  | Some raw =>
      {| uploader_app :=
           processJsonData newData (raw_name raw) (raw_size raw) (uploader_app u);
         rawFileState := None |}
  | None => u
  end.

(** A load that [processJsonData] accepts. *)
Definition load_accepted (json : JsonValue) : Prop := dataToDisplay json ≠ [].

(** ** Specification-side notions *)

(** A non-null object in JavaScript's sense: an array or an object. *)
Definition nonnull_object (v : JsonValue) : Prop :=
  match v with
  | JArray _ | JObject _ => True
  | _ => False
  end.

#[global] Instance nonnull_object_dec (v : JsonValue) : Decision (nonnull_object v).
Proof. destruct v; simpl; apply _. Defined.

(** A path reachable by legal drills: each segment names an entry of the
    container it indexes, an index for an array and a key for an object. *)
Fixpoint legal_path (d : JsonValue) (p : list Name) : Prop :=
  match p with
  | [] => True
  | key :: rest =>
      match d, key with
      | JArray xs, NIdx i => ∃ v, xs !! i = Some v ∧ legal_path v rest
      | JObject kvs, NKey k => ∃ v, obj_lookup k kvs = Some v ∧ legal_path v rest
      | _, _ => False
      end
  end.

(** Two paths part ways: after a common prefix they name different
    properties. *)
Definition paths_diverge (p q : list Name) : Prop :=
  ∃ common a p' b q',
    p = common ++ a :: p' ∧ q = common ++ b :: q' ∧
    String_of_name a ≠ String_of_name b.

(** An ordered sequence of objects: the shape the specification gives the
    root. *)
Definition sequence_of_objects (v : JsonValue) : Prop :=
  match v with
  | JArray xs => Forall nonnull_object xs
  | _ => False
  end.

Definition root_guard_message : string :=
  "Root update failed validation: must be an array.".

(** The reorder as the specification words it.  [items_at P items] are the
    entries of [items] whose index satisfies [P], in their order in
    [items]. *)
Definition items_at {A} (P : nat → Prop) `{!∀ i, Decision (P i)}
    (items : list A) : list A :=
  omap (items !!.) (filter P (seq 0 (length items))).

Definition stay_items (M : gset nat) (items : list Item) : list Item :=
  items_at (.∉ M) items.

Definition move_items (M : gset nat) (items : list Item) : list Item :=
  items_at (.∈ M) items.

(** [|{m ∈ M : m < T}|] *)
Definition count_before (M : gset nat) (T : Z) : nat :=
  size (filter (λ m, (Z.of_nat m < T)%Z) M).

Definition clampZ (lo hi x : Z) : Z := Z.max lo (Z.min hi x).

Definition adjustedT (items : list Item) (M : gset nat) (T : Z) : nat :=
  Z.to_nat (clampZ 0 (Z.of_nat (length (stay_items M items)))
                   (T - Z.of_nat (count_before M T))).

Definition reorder_spec (items : list Item) (M : gset nat) (T : Z) : list Item :=
  let stay := stay_items M items in
  let adj := adjustedT items M T in
  take adj stay ++ move_items M items ++ drop adj stay.

(** Step 5 of the reorder: the new value of the container. *)
Definition reserialize (container : JsonValue) (result : list Item) : JsonValue :=
  if isArray container then JArray (value <$> result)
  else
    JObject (foldl (λ newObj item,
                      obj_set (String_of_name (name item)) (value item) newObj)
                   [] result).

(** The state a reorder leaves: the new value handed to
    [updateDataAtCurrentPath], then selection, focus and anchor on the moved
    block. *)
Definition after_reorder (newData : JsonValue) (adj n : nat) (s : State) : State :=
  set_anchorIndexRef (Some adj)
    (setFocusedIndex (Some adj)
       (setSelectedIndices (set_seq adj n)
          (updateDataAtCurrentPath newData s))).






(** The focus is absent or names a displayed item. *)
Definition focus_in_range `{JsStrings} (s : State) : Prop :=
  match focusedIndex (grid s) with
  | Some focused => focused < length (currentData s)
  | None => True
  end.

(** Every selected index names a displayed item. *)
Definition selection_in_range `{JsStrings} (s : State) : Prop :=
  ∀ i, i ∈ selectedIndices (grid s) → i < length (currentData s).


(** The quantity the three history operations keep below the bound. *)
Definition bounded_history (h : History) : Prop :=
  length (past h) + length (future h) ≤ MAX_HISTORY.

(** [a'] is [a], or [a] after one event of [App]. *)
Definition app_moves (a a' : App) : Prop :=
  a' = a ∨ ∃ aev, a' = app_step aev a.

(** ** Sample inputs *)

Definition ascii_toLowerCase (s : string) : string :=
  (fix go (s : string) : string :=
     match s with
     | EmptyString => EmptyString
     | String c s' =>
         let n := N_of_ascii c in
         String (if ((65 <=? n) && (n <=? 90))%N then ascii_of_N (n + 32) else c)
                (go s')
     end) s.

Definition quote_string (s : string) : string :=
  String.append (String "034" s) (String "034" EmptyString).

Fixpoint plain_stringify (v : JsonValue) : string :=
  match v with
  | JUndefined => "null"
  | JNull => "null"
  | JBool true => "true"
  | JBool false => "false"
  | JNumber n => pretty n
  | JString s => quote_string s
  | JArray xs =>
      String.append "["
        (String.append
           ((fix go (xs : list JsonValue) : string :=
               match xs with
               | [] => ""
               | [x] => plain_stringify x
               | x :: rest => String.append (plain_stringify x) (String.append "," (go rest))
               end) xs) "]")
  | JObject kvs =>
      String.append "{"
        (String.append
           ((fix go (kvs : list (string * JsonValue)) : string :=
               match kvs with
               | [] => ""
               | [(k, x)] =>
                   String.append (quote_string k) (String.append ":" (plain_stringify x))
               | (k, x) :: rest =>
                   String.append (quote_string k)
                     (String.append ":"
                        (String.append (plain_stringify x) (String.append "," (go rest))))
               end) kvs) "}")
  end.

(** String functions for sample runs: lower-casing of the ASCII letters and a
    serialiser without escapes. *)
Definition sample_strings : JsStrings :=
  {| toLowerCase := ascii_toLowerCase; JSON_stringify := plain_stringify |}.

Definition sample_history : History :=
  {| past := []; present := JArray [JObject [("id", JNumber 1)]]; future := [] |}.

Definition full_history : History :=
  {| past := JArray [] :: replicate 49 (JArray [JNull]);
     present := JArray [JObject [("id", JNumber 1)]]; future := [] |}.

Definition sample_doc : JsonValue :=
  JArray [JObject [("id", JNumber 1);
                   ("tags", JArray [JString "x"; JString "y"])];
          JObject [("id", JNumber 2)]].

(** The state after loading [sample_doc]. *)
Definition loaded_state : State :=
  @step sample_strings (LoadFile sample_doc "sample.json" 64%N) initialState.

(** A drag of card 0 that never passes over a card. *)
Definition dragging_state : State := onDragStart 0 loaded_state.

(** A drag of card 0 that last hovered the right half of card 1. *)
Definition hovering_state : State := onDragOver 1 true dragging_state.

(** A state at the root of the document [doc], nothing selected. *)
Definition root_state_of (doc : JsonValue) : State :=
  {| app := {| meta := Some (mkMeta "doc.json" 0%N);
               history := {| past := []; present := doc; future := [] |};
               error := None |};
     grid := initialGrid; console_errors := [] |}.







(** ** Further specification-side notions *)

(** [handleDataUpdate] called once for each document of [docs], in order. *)
Definition push_all (docs : list JsonValue) (h : History) : History :=
  foldl (λ h d, handleDataUpdate d h) h docs.

(** The snapshots a history can go back to, oldest first, then the
    present. *)
Definition timeline (h : History) : list JsonValue := past h ++ [present h].

(** The update is accepted: there is a document, the path is legal in it,
    and at the root the new value is an array. *)
Definition update_accepted (newData : JsonValue) (s : State) : Prop :=
  truthy (file_data s) = true ∧
  legal_path (file_data s) (path (grid s)) ∧
  (path (grid s) = [] → isArray newData = true).

(** The state in which Ctrl+Arrow moves the single selected card [i]: no
    modal, no filter, the search field not focused, a focus, and the list not
    empty. *)
Definition ready_to_move `{JsStrings} (i : nat) (dom : DomEnv) (s : State) : Prop :=
  selectedItem (grid s) = None ∧
  isInputActive dom = false ∧
  searchTerm (grid s) = "" ∧
  is_Some (focusedIndex (grid s)) ∧
  selectedIndices (grid s) = {[ i ]} ∧
  currentData s ≠ [].

(** The entry an item stands for. *)
Definition entry_of_item (item : Item) : string * JsonValue :=
  (String_of_name (name item), value item).

(** [kv1] and [kv2] have integer keys, that of [kv1] the smaller. *)
Definition index_key_lt (kv1 kv2 : string * JsonValue) : Prop :=
  ∃ i j, array_index_of_key kv1.1 = Some i ∧
         array_index_of_key kv2.1 = Some j ∧ i < j.

(** An object all of whose keys are integer keys, in the order JavaScript
    enumerates them. *)
Definition index_keyed_object (kvs : list (string * JsonValue)) : Prop :=
  Forall (λ kv, is_Some (array_index_of_key kv.1)) kvs ∧
  StronglySorted index_key_lt kvs.

(** [a'] is [a], or [a] after one call of [handleDataUpdate]. *)
Definition edit_moves (a a' : App) : Prop :=
  a' = a ∨ ∃ newData, a' = set_history (handleDataUpdate newData) a.

(** The events that [JsonGrid] and its cards handle. *)
Definition is_grid_event (ev : Event) : bool :=
  match ev with
  | LoadFile _ _ _ | ResetApp | UndoCommand | RedoCommand => false
  | _ => true
  end.

(** The value [setDeep] descends into: the entry under [head], or the
    container it makes up when there is none. *)
Definition nextObj (obj : JsonValue) (head : Name) (rest : list Name) : JsonValue :=
  if truthy obj && negb (is_undefined (get_prop obj head))
  then get_prop obj head
  else if head_is_number rest then JArray [] else JObject [].


(** ** Further sample inputs *)

(** [loaded_state] with a filter. *)
Definition filtered_state : State := setSearchTerm "tags" loaded_state.

(** [loaded_state] after a click on card [i]. *)
Definition clicked_state (i : nat) : State :=
  handleCardClick false false i loaded_state.

Definition ctrl_arrow (k : string) : KeyboardEvent :=
  {| key := k; shiftKey := false; ctrlKey := true; metaKey := false |}.

Definition plain_key (k : string) : KeyboardEvent :=
  {| key := k; shiftKey := false; ctrlKey := false; metaKey := false |}.

Definition wide_window : DomEnv :=
  {| isInputActive := false; isTyping := false; innerWidth := 1280 |}.

(** Inside the first card of [sample_doc]: an object with the keys [id] and
    [tags]. *)
Definition nested_state : State := setPath [NIdx 0] (root_state_of sample_doc).

Definition numbered_doc : JsonValue :=
  JArray [JObject [("1", JString "a"); ("2", JString "b")]].

(** Inside the only card of [numbered_doc]: an object with integer keys. *)
Definition numbered_state : State :=
  setPath [NIdx 0] (root_state_of numbered_doc).

(** The modal open on the [id] of the first card of [sample_doc]. *)
Definition editing_state : State :=
  openItem {| name := NKey "id"; value := JNumber 1 |} nested_state.

(** A parser that knows one text. *)
Definition sample_parse (text : string) : option JsonValue :=
  if String.eqb text "[{}]" then Some (JArray [JObject []]) else None.

Definition initialUploader : Uploader :=
  {| uploader_app := initialApp; rawFileState := None |}.

(** * Properties *)

(** ** History *)

Section history_lemmas.
Implicit Types (h : History) (d : JsonValue).

Lemma last_lookup_snoc (l : list JsonValue) d :
  (l ++ [d]) !! (length (l ++ [d]) - 1) = Some d.
Proof.
  rewrite length_app; simpl.
  replace (length l + 1 - 1) with (length l + 0) by lia.
  by rewrite lookup_app_r, Nat.add_comm, Nat.add_sub by lia.
Qed.

Lemma take_all_but_last_snoc (l : list JsonValue) d :
  take (length (l ++ [d]) - 1) (l ++ [d]) = l.
Proof.
  rewrite length_app; simpl.
  replace (length l + 1 - 1) with (length l) by lia.
  by rewrite take_app_length.
Qed.

(** The past after a push is a snoc: the entry just pushed is its last. *)
Lemma pushed_past_snoc h d :
  truthy (present h) = true →
  ∃ front, past (handleDataUpdate d h) = front ++ [present h] ∧
           (length (past h) < MAX_HISTORY → front = past h) ∧
           (MAX_HISTORY ≤ length (past h) → front = drop 1 (past h)).
Proof.
  intros Ht. unfold handleDataUpdate. rewrite Ht; simpl.
  rewrite length_app; simpl.
  destruct (Nat.ltb_spec MAX_HISTORY (length (past h) + 1)) as [Hlt|Hge].
  - exists (drop 1 (past h)). unfold array_shift. split; [|split; [lia|done]].
    destruct (past h) as [|x l]; simpl in *; [unfold MAX_HISTORY in *; lia|].
    by rewrite !drop_0.
  - exists (past h). split; [done|split; [done|lia]].
Qed.

Lemma handleDataUpdate_present h d :
  truthy (present h) = true → present (handleDataUpdate d h) = d.
Proof. intros Ht. unfold handleDataUpdate. by rewrite Ht. Qed.

Lemma handleDataUpdate_future h d :
  truthy (present h) = true → future (handleDataUpdate d h) = [].
Proof. intros Ht. unfold handleDataUpdate. by rewrite Ht. Qed.

Lemma undo_snoc (front fut : list JsonValue) d d' :
  undo {| past := front ++ [d]; present := d'; future := fut |} =
  {| past := front; present := d; future := d' :: fut |}.
Proof.
  unfold undo; cbn [past present future].
  rewrite last_lookup_snoc, take_all_but_last_snoc.
  rewrite length_app; simpl.
  by replace (length front + 1 =? 0) with false
    by (symmetry; apply Nat.eqb_neq; lia).
Qed.

Lemma redo_cons (pst fut : list JsonValue) d d' :
  redo {| past := pst; present := d; future := d' :: fut |} =
  {| past := pst ++ [d]; present := d'; future := fut |}.
Proof. unfold redo; cbn. by rewrite drop_0. Qed.

Lemma undo_empty_past h : past h = [] → undo h = h.
Proof. intros Hp. unfold undo. by rewrite Hp. Qed.

Lemma redo_empty_future h : future h = [] → redo h = h.
Proof. intros Hf. unfold redo. by rewrite Hf. Qed.

Lemma history_eta h :
  h = {| past := past h; present := present h; future := future h |}.
Proof. by destruct h. Qed.

Lemma redo_undo h : past h ≠ [] → redo (undo h) = h.
Proof.
  destruct h as [pst d' fut]. cbn [past]. intros Hp.
  destruct (exists_last Hp) as (front & d & ->).
  by rewrite undo_snoc, redo_cons.
Qed.
End history_lemmas.

(** C2.  From a history whose present is the document [D], after a push of
    [D'] an undo makes [D] the present again and a redo after it makes [D']
    the present (it restores the whole history as the push left it); more
    generally an undo that has something to undo is reverted by the redo that
    follows it; undo on an empty past and redo on an empty future return the
    history unchanged. *)
Theorem undo_redo_after_push (h : History) (D' : JsonValue) :
  truthy (present h) = true →
  present (undo (handleDataUpdate D' h)) = present h ∧
  present (redo (undo (handleDataUpdate D' h))) = D' ∧
  redo (undo (handleDataUpdate D' h)) = handleDataUpdate D' h ∧
  (∀ h0, past h0 ≠ [] → redo (undo h0) = h0) ∧
  (∀ h0, past h0 = [] → undo h0 = h0) ∧
  (∀ h0, future h0 = [] → redo h0 = h0).
Proof.
  intros Ht.
  destruct (pushed_past_snoc h D' Ht) as (front & Hpast & _).
  pose proof (handleDataUpdate_present h D' Ht) as Hpres.
  pose proof (handleDataUpdate_future h D' Ht) as Hfut.
  rewrite (history_eta (handleDataUpdate D' h)), Hpast, Hpres, Hfut.
  rewrite undo_snoc, redo_cons. cbn [present].
  repeat split; auto using redo_undo, undo_empty_past, redo_empty_future.
Qed.

Lemma undo_redo_after_push_witness :
  present (undo (handleDataUpdate (JArray []) sample_history))
  = present sample_history.
Proof. apply (undo_redo_after_push sample_history (JArray [])). reflexivity. Defined.

Section history_invariant.
Implicit Types (h : History) (a : App).

Lemma handleDataUpdate_bounded h d :
  bounded_history h → bounded_history (handleDataUpdate d h).
Proof.
  unfold bounded_history, handleDataUpdate. intros Hb.
  destruct (truthy (present h)); simpl; [|done].
  rewrite length_app; simpl.
  destruct (Nat.ltb_spec MAX_HISTORY (length (past h) + 1)); simpl.
  - unfold array_shift. rewrite length_drop, length_app; simpl.
    unfold MAX_HISTORY in *. lia.
  - rewrite length_app; simpl. lia.
Qed.

Lemma undo_bounded h : bounded_history h → bounded_history (undo h).
Proof.
  unfold bounded_history, undo. intros Hb.
  destruct (Nat.eqb_spec (length (past h)) 0); simpl; [done|].
  rewrite length_take. lia.
Qed.

Lemma redo_bounded h : bounded_history h → bounded_history (redo h).
Proof.
  unfold bounded_history, redo. intros Hb.
  destruct (Nat.eqb_spec (length (future h)) 0); simpl; [done|].
  rewrite length_app, length_drop; simpl. lia.
Qed.

Lemma app_reachable_bounded a :
  app_reachable a → bounded_history (history a).
Proof.
  induction 1 as [|ev a _ IH].
  - unfold bounded_history, MAX_HISTORY; simpl. lia.
  - destruct ev; simpl.
    + unfold processJsonData. destruct (_ =? 0); simpl; [done|].
      unfold bounded_history, MAX_HISTORY; simpl. lia.
    + unfold bounded_history, MAX_HISTORY; simpl. lia.
    + by apply handleDataUpdate_bounded.
    + by apply undo_bounded.
    + by apply redo_bounded.
Qed.
End history_invariant.

(** ** The grid changes the history only through [App]'s operations *)

Section app_projection.
Context `{JsStrings}.
Implicit Types (s : State).

Lemma app_updateDataAtCurrentPath newData s :
  app_moves (app s) (app (updateDataAtCurrentPath newData s)).
Proof.
  unfold updateDataAtCurrentPath.
  destruct (_ && _); [by left|].
  right. by eexists (EvUpdate _).
Qed.

Lemma app_dragCleanup s : app (dragCleanup s) = app s.
Proof. done. Qed.

Lemma app_moveItemsDirect M T s :
  app_moves (app s) (app (outcome_state (moveItemsDirect M T s))).
Proof.
  unfold moveItemsDirect.
  destruct (negb _); [by left|].
  destruct (_ =? 0); [by left|].
  match goal with |- context [match ?x with Some _ => _ | None => _ end] =>
    destruct x end; [|by left].
  cbn. apply app_updateDataAtCurrentPath.
Qed.

Lemma app_onDragEnd s :
  app_moves (app s) (app (outcome_state (onDragEnd s))).
Proof.
  unfold onDragEnd.
  destruct (dragDataRef _); [|by left].
  destruct (dropTargetRef _); [|by left].
  destruct (negb _); [by left|].
  destruct (0 <? _); [|by left].
  match goal with |- context [match ?x with Some _ => _ | None => _ end] =>
    destruct x end; [|by left].
  cbn. apply app_updateDataAtCurrentPath.
Qed.

Lemma app_handleDelete t s :
  app_moves (app s) (app (handleDelete t s)).
Proof.
  unfold handleDelete.
  destruct (_ =? 0); [by left|].
  destruct (_ =? 0); [by left|].
  cbn. apply app_updateDataAtCurrentPath.
Qed.

Lemma app_handleDrillDown k v s : app (handleDrillDown k v s) = app s.
Proof. unfold handleDrillDown. by destruct (_ && _). Qed.

Lemma app_handleNavigateUp s : app (handleNavigateUp s) = app s.
Proof. unfold handleNavigateUp. by destruct (_ <? _). Qed.

Lemma app_handleCardClick c sh i s : app (handleCardClick c sh i s) = app s.
Proof.
  unfold handleCardClick.
  destruct c; [done|]. destruct sh; [|done]. by destruct (anchorIndexRef _).
Qed.

Lemma app_onDragStart i s : app (onDragStart i s) = app s.
Proof.
  unfold onDragStart. destruct (negb (String.eqb _ _)); [done|].
  by destruct (negb (set_has _ _)).
Qed.

Lemma app_arrowNavigation e c n s : app (arrowNavigation e c n s) = app s.
Proof. unfold arrowNavigation. by destruct (shiftKey e). Qed.

Lemma app_handleKeyDown e dom s :
  app_moves (app s) (app (outcome_state (handleKeyDown e dom s))).
Proof.
  unfold handleKeyDown, handleMoveItems.
  repeat match goal with
  | |- app_moves _ (app (outcome_state (if ?c then _ else _))) => destruct c
  | |- app_moves _ (app (outcome_state (match ?x with Some _ => _ | None => _ end))) =>
      destruct x
  | |- app_moves _ (app (outcome_state (let _ := _ in _))) => cbv zeta
  end;
  try (left; cbn [outcome_state];
       first [ done | apply app_handleNavigateUp | apply app_handleDrillDown
             | apply app_arrowNavigation ]);
  first [ apply app_handleDelete | apply app_moveItemsDirect ].
Qed.

Lemma app_handle ev s :
  app_moves (app s) (app (outcome_state (handle ev s))).
Proof.
  destruct ev; cbn [handle outcome_state];
  try (by left);
  try (right; first [ by eexists (EvLoad _ _ _) | by eexists EvReset
                    | by eexists EvUndo | by eexists EvRedo ]).
  - left. apply app_handleCardClick.
  - left. destruct (_ !! _); [apply app_handleDrillDown|done].
  - apply app_handleDelete.
  - left. by destruct (_ !! _).
  - left. apply app_onDragStart.
  - apply app_onDragEnd.
  - left. cbn. apply app_handleNavigateUp.
  - destruct (selectedItem (grid s)) eqn:Hsel; unfold handleModalSave;
      rewrite Hsel; [|by left].
    right. by eexists (EvUpdate _).
  - apply app_handleKeyDown.
Qed.

Lemma app_pathEffect s : app (pathEffect s) = app s.
Proof. done. Qed.

Lemma app_clampEffect r s : app (clampEffect r s) = app s.
Proof.
  unfold clampEffect. destruct (focusedIndex _); [|done].
  destruct (_ =? 0); [done|]. by destruct (_ <=? _).
Qed.

Lemma app_effects_pass prev cur : app (effects_pass prev cur) = app cur.
Proof.
  unfold effects_pass.
  destruct (_ && _); [|rewrite app_clampEffect];
    by destruct (pathIdentity _ =? _).
Qed.

Lemma app_unmount_if_closed s : app (unmount_if_closed s) = app s.
Proof. unfold unmount_if_closed. by destruct (parsedFile s). Qed.

Lemma app_step_state ev s : app_moves (app s) (app (step ev s)).
Proof.
  unfold step, settle.
  rewrite !app_effects_pass, app_unmount_if_closed. apply app_handle.
Qed.

Lemma reachable_app s : reachable s → app_reachable (app s).
Proof.
  induction 1 as [|ev s _ IH _]; [constructor|].
  destruct (app_step_state ev s) as [->|[aev ->]]; [done|].
  by constructor.
Qed.
End app_projection.

(** C5.  In every reachable state the past holds at most [MAX_HISTORY] = 50
    snapshots.  A push (on a non-null present) appends the previous present
    to the past, keeps the last 50 entries of that list (so on a full past the
    oldest entry is dropped), makes the new document the present and empties
    the future. *)
Theorem history_bound_and_push :
  MAX_HISTORY = 50 ∧
  (∀ (B : JsStrings) (s : State),
     reachable s → length (past (history (app s))) ≤ MAX_HISTORY) ∧
  (∀ (h : History) (d : JsonValue),
     truthy (present h) = true →
     length (past h) ≤ MAX_HISTORY →
     past (handleDataUpdate d h)
       = drop (length (past h ++ [present h]) - MAX_HISTORY)
              (past h ++ [present h]) ∧
     (length (past h) = MAX_HISTORY →
        past (handleDataUpdate d h) = drop 1 (past h) ++ [present h]) ∧
     length (past (handleDataUpdate d h)) ≤ MAX_HISTORY ∧
     present (handleDataUpdate d h) = d ∧
     future (handleDataUpdate d h) = []).
Proof.
  split; [done|]. split.
  - intros B s Hs.
    pose proof (app_reachable_bounded _ (reachable_app s Hs)) as Hb.
    unfold bounded_history in Hb. lia.
  - intros h d Ht Hlen.
    destruct (pushed_past_snoc h d Ht) as (front & Hpast & Hlt & Hge).
    rewrite Hpast, length_app; cbn [length].
    repeat split.
    + destruct (decide (length (past h) < MAX_HISTORY)) as [Hl|Hl].
      * rewrite (Hlt Hl).
        replace (length (past h) + 1 - MAX_HISTORY) with 0 by lia.
        by rewrite drop_0.
      * rewrite (Hge ltac:(lia)).
        replace (length (past h) + 1 - MAX_HISTORY) with 1 by lia.
        destruct (past h); simpl in *; [unfold MAX_HISTORY in *; lia|].
        by rewrite !drop_0.
    + intros Heq. by rewrite (Hge ltac:(lia)).
    + rewrite length_app; cbn [length].
      destruct (decide (length (past h) < MAX_HISTORY)) as [Hl|Hl].
      * rewrite (Hlt Hl). lia.
      * rewrite (Hge ltac:(lia)), length_drop. unfold MAX_HISTORY in *. lia.
    + by apply handleDataUpdate_present.
    + by apply handleDataUpdate_future.
Qed.

Lemma history_bound_and_push_witness :
  past (handleDataUpdate (JArray []) full_history)
  = replicate 49 (JArray [JNull]) ++ [JArray [JObject [("id", JNumber 1)]]].
Proof.
  apply (proj1 (proj2 (proj2 (proj2 history_bound_and_push)
                 full_history (JArray []) eq_refl ltac:(vm_compute; lia)))).
  reflexivity.
Defined.

(** ** Loading *)

Lemma is_nonnull_object_spec (v : JsonValue) :
  is_nonnull_object v = true ↔ nonnull_object v.
Proof. by destruct v. Qed.

(** C10.  Loading an array keeps, in order, exactly its elements that are
    non-null objects (arrays and objects) and makes them the document, with a
    fresh history and no error; only when none remains is the load rejected:
    the error message is set and the history is left as it was.  Loading
    [[1, {"a":1}, "x"]] gives the document [[{"a":1}]] and no error. *)
Theorem load_array_keeps_objects :
  (∀ (xs : list JsonValue) (name : string) (size : N) (a : App),
     let kept := filter nonnull_object xs in
     processJsonData (JArray xs) name size a =
       match kept with
       | [] =>
         {| meta := meta a; history := history a;
            error := Some load_error_message |}
       | _ :: _ =>
         {| meta := Some (mkMeta name size);
            history := {| past := []; present := JArray kept; future := [] |};
            error := None |}
       end) ∧
  (∀ (name : string) (size : N) (a : App),
     let a' := processJsonData
                 (JArray [JNumber 1; JObject [("a", JNumber 1)]; JString "x"])
                 name size a in
     present (history a') = JArray [JObject [("a", JNumber 1)]] ∧
     error a' = None).
Proof.
  split; [|done].
  intros xs name size a kept.
  assert (dataToDisplay (JArray xs) = kept) as Hkept.
  { unfold kept, dataToDisplay, array_filter.
    induction xs as [|x xs IH]; [done|].
    cbn [List.filter]. rewrite filter_cons.
    destruct (is_nonnull_object x) eqn:Hx.
    - rewrite decide_True by by apply is_nonnull_object_spec.
      by rewrite IH.
    - rewrite decide_False; [done|].
      rewrite <-is_nonnull_object_spec. congruence. }
  unfold processJsonData. rewrite Hkept.
  destruct kept; by cbn.
Qed.

(** ** Path resolver *)

Section path_resolver.
Implicit Types (d v : JsonValue) (p q : list Name).

Lemma obj_replace_id k v kvs : obj_lookup k kvs = Some v → obj_replace k v kvs = kvs.
Proof.
  induction kvs as [|[k' v'] kvs IH]; [done|]. cbn.
  destruct (String.eqb k' k); [by intros [= ->]|].
  intros Hl. by rewrite IH.
Qed.

Lemma obj_lookup_replace_ne k k' v kvs :
  k ≠ k' → obj_lookup k' (obj_replace k v kvs) = obj_lookup k' kvs.
Proof.
  intros Hne. induction kvs as [|[k0 v0] kvs IH]; [done|]. cbn.
  destruct (String.eqb_spec k0 k) as [->|Hk0]; cbn.
  - by destruct (String.eqb_spec k k').
  - by rewrite IH.
Qed.

Lemma obj_set_present k v x kvs :
  obj_lookup k kvs = Some x → obj_set k v kvs = obj_replace k v kvs.
Proof. intros Hl. unfold obj_set, obj_has. by rewrite Hl. Qed.

Lemma array_set_present i v x (xs : list JsonValue) :
  xs !! i = Some x → array_set i v xs = <[i:=v]> xs.
Proof.
  intros Hl. unfold array_set.
  apply lookup_lt_Some in Hl. by rewrite (proj2 (Nat.ltb_lt _ _) Hl).
Qed.

Lemma array_index_of_key_pretty k i :
  array_index_of_key k = Some i → k = pretty i.
Proof.
  unfold array_index_of_key. destruct k as [|c k]; [done|].
  destruct (parse_digits _ _) as [n|]; [|done].
  destruct (String.eqb_spec (pretty n) (String c k)) as [Heq|]; [|done].
  destruct (_ <? _)%N; [|done]. intros [= <-].
  rewrite <-Heq. unfold pretty at 2, pretty_nat. by rewrite N2Nat.id.
Qed.

Lemma array_index_of_name_pretty a i :
  array_index_of_name a = Some i → String_of_name a = pretty i.
Proof.
  destruct a as [k|j]; cbn; [apply array_index_of_key_pretty|by intros [= ->]].
Qed.

(** One level: the step of [resolvePath] into a legal entry. *)
Lemma legal_path_cons d a p :
  legal_path d (a :: p) →
  ∃ v, get_prop d a = v ∧ legal_path v p ∧
       truthy d && String.eqb (typeof d) "object" = true ∧
       set_prop (clone_level d) a v = d ∧
       (∀ w b, String_of_name a ≠ String_of_name b →
               get_prop (set_prop (clone_level d) a w) b = get_prop d b) ∧
       (∀ w, truthy (set_prop (clone_level d) a w) &&
             String.eqb (typeof (set_prop (clone_level d) a w)) "object" = true).
Proof.
  destruct d as [| | | | |xs|kvs], a as [k|i]; cbn [legal_path]; try done.
  - intros (v & Hv & Hp). exists v. cbn. rewrite Hv. repeat split; try done.
    + by rewrite (array_set_present _ _ _ _ Hv), list_insert_id.
    + intros w b Hne.
      destruct (array_index_of_name b) as [j|] eqn:Hb; [|done].
      rewrite (array_set_present _ _ _ _ Hv).
      rewrite list_lookup_insert_ne; [done|].
      intros ->. apply array_index_of_name_pretty in Hb. congruence.
  - intros (v & Hv & Hp). exists v. cbn. rewrite Hv. repeat split; try done.
    + by rewrite (obj_set_present _ _ _ _ Hv), obj_replace_id.
    + intros w b Hne.
      by rewrite (obj_set_present _ _ _ _ Hv), obj_lookup_replace_ne.
Qed.

Lemma setDeep_cons_legal d a p w :
  legal_path d (a :: p) →
  setDeep d (a :: p) w = set_prop (clone_level d) a (setDeep (get_prop d a) p w).
Proof.
  intros Hl. destruct (legal_path_cons _ _ _ Hl) as (v & Hv & Hp & Ht & _).
  cbn [setDeep]. apply andb_prop in Ht as [-> _]. cbn [andb].
  destruct (is_undefined (get_prop d a)) eqn:Hu; [|done].
  cbn [negb]. subst v. destruct (get_prop d a); try done.
  destruct p as [|b p]; [done|]. by destruct b.
Qed.


Lemma resolvePath_setDeep_diverge d p q w :
  legal_path d p → paths_diverge p q →
  resolvePath (setDeep d p w) q = resolvePath d q.
Proof.
  intros Hl (common & a & p' & b & q' & -> & -> & Hne).
  revert d Hl. induction common as [|c common IH]; intros d Hl.
  - rewrite !app_nil_l in *. rewrite setDeep_cons_legal by done.
    destruct (legal_path_cons _ _ _ Hl) as (v & Hv & Hp & Ht & _ & Hoff & Hobj).
    cbn [resolvePath]. by rewrite Hobj, Ht, Hoff.
  - rewrite <-!app_comm_cons in *. rewrite setDeep_cons_legal by done.
    destruct (legal_path_cons _ _ _ Hl) as (v & Hv & Hp & Ht & Hid & Hoff & Hobj).
    cbn [resolvePath]. rewrite Hobj, Ht.
    assert (get_prop (set_prop (clone_level d) c
              (setDeep (get_prop d c) (common ++ a :: p') w)) c
            = setDeep (get_prop d c) (common ++ a :: p') w) as ->.
    { clear -Hl. destruct d as [| | | | |xs|kvs], c as [k|i]; cbn in Hl; try done.
      - destruct Hl as (v & Hv & _). cbn.
        rewrite (array_set_present _ _ _ _ Hv).
        by rewrite list_lookup_insert_eq by by eapply lookup_lt_Some.
      - destruct Hl as (v & Hv & _). cbn.
        rewrite (obj_set_present _ _ _ _ Hv).
        clear -Hv. induction kvs as [|[k0 v0] kvs IHk]; [done|].
        cbn in *. destruct (String.eqb_spec k0 k) as [->|Hk0]; cbn.
        + by rewrite String.eqb_refl.
        + rewrite (proj2 (String.eqb_neq _ _) Hk0). by apply IHk. }
    subst v. by apply IH.
Qed.
End path_resolver.



(** ** Root guard *)

(** The guard as the specification words it does not hold: at the empty
    path the array [[1]], which is not a sequence of objects, is accepted and
    becomes the document, and nothing is logged. *)
Lemma root_guard_counterexample :
  path (grid loaded_state) = [] ∧
  ¬ sequence_of_objects
      (setDeep (file_data loaded_state) (path (grid loaded_state))
         (JArray [JNumber 1])) ∧
  file_data (updateDataAtCurrentPath (JArray [JNumber 1]) loaded_state)
    = JArray [JNumber 1] ∧
  past (history (app (updateDataAtCurrentPath (JArray [JNumber 1]) loaded_state)))
    = [sample_doc] ∧
  console_errors (updateDataAtCurrentPath (JArray [JNumber 1]) loaded_state) = [].
Proof.
  split; [reflexivity|]. split; [|by vm_compute].
  intros Hseq. vm_compute in Hseq. by inversion Hseq.
Qed.

(** C3 (amended).  At the empty path the guard tests that the new root is
    an array.  A new root that is not an array is rejected: the history is
    left as it was and the error is logged.  A new root that is an array,
    whatever its elements, goes to the history as an update. *)
Theorem root_guard_array_only (s : State) (newData : JsonValue) :
  path (grid s) = [] →
  (isArray newData = false →
     updateDataAtCurrentPath newData s = console_error root_guard_message s ∧
     history (app (updateDataAtCurrentPath newData s)) = history (app s) ∧
     console_errors (updateDataAtCurrentPath newData s)
       = console_errors s ++ [root_guard_message]) ∧
  (isArray newData = true →
     updateDataAtCurrentPath newData s = onUpdate newData s ∧
     history (app (updateDataAtCurrentPath newData s))
       = handleDataUpdate newData (history (app s)) ∧
     console_errors (updateDataAtCurrentPath newData s) = console_errors s).
Proof.
  intros Hp. unfold updateDataAtCurrentPath. rewrite Hp. cbn [setDeep length].
  split; intros ->; done.
Qed.

Lemma root_guard_array_only_witness :
  updateDataAtCurrentPath (JObject []) loaded_state
  = console_error root_guard_message loaded_state.
Proof.
  apply (proj1 (root_guard_array_only loaded_state (JObject []) eq_refl)).
  reflexivity.
Defined.

(** ** Drag and drop *)

(** C9.  When a drag ends and no target was captured, nothing is moved: the
    history, the log, the path, the selection and the focus are as before,
    and the drag context and the drop target (ref and displayed) are
    cleared. *)
Theorem drag_end_without_target (s : State) :
  dropTargetRef (grid s) = None →
  onDragEnd s = Returned (dragCleanup s) ∧
  app (dragCleanup s) = app s ∧
  console_errors (dragCleanup s) = console_errors s ∧
  path (grid (dragCleanup s)) = path (grid s) ∧
  selectedIndices (grid (dragCleanup s)) = selectedIndices (grid s) ∧
  focusedIndex (grid (dragCleanup s)) = focusedIndex (grid s) ∧
  anchorIndexRef (grid (dragCleanup s)) = anchorIndexRef (grid s) ∧
  dragDataRef (grid (dragCleanup s)) = None ∧
  dropTargetRef (grid (dragCleanup s)) = None ∧
  dropTargetIndex (grid (dragCleanup s)) = None ∧
  draggedIndex (grid (dragCleanup s)) = None.
Proof.
  intros Ht. unfold onDragEnd. rewrite Ht.
  by destruct (dragDataRef (grid s)).
Qed.

Lemma drag_end_without_target_witness :
  onDragEnd dragging_state = Returned (dragCleanup dragging_state).
Proof. apply (drag_end_without_target dragging_state). reflexivity. Defined.

(** C8.  When the snapshot of the drag context is the live item list, the
    end of the drag computes what the direct move computes on the indices
    and target of the drag: it throws when the direct move throws, and
    otherwise returns the state the direct move returns, with the drag state
    cleared; so document, selection, focus and anchor agree. *)
Theorem drag_end_matches_direct_move (s : State) (dragData : DragData) (T : Z) :
  dragDataRef (grid s) = Some dragData →
  dropTargetRef (grid s) = Some T →
  itemsSnapshot dragData = allItems s →
  let direct := moveItemsDirect (indicesToMove dragData) T s in
  onDragEnd s =
    match direct with
    | Returned s' => Returned (dragCleanup s')
    | Threw s' => Threw s'
    end ∧
  app (outcome_state (onDragEnd s)) = app (outcome_state direct) ∧
  file_data (outcome_state (onDragEnd s)) = file_data (outcome_state direct) ∧
  selectedIndices (grid (outcome_state (onDragEnd s)))
    = selectedIndices (grid (outcome_state direct)) ∧
  focusedIndex (grid (outcome_state (onDragEnd s)))
    = focusedIndex (grid (outcome_state direct)) ∧
  anchorIndexRef (grid (outcome_state (onDragEnd s)))
    = anchorIndexRef (grid (outcome_state direct)).
Proof.
  intros Hd Ht Hsnap direct.
  assert (onDragEnd s =
          match direct with
          | Returned s' => Returned (dragCleanup s')
          | Threw s' => Threw s'
          end) as Heq.
  { unfold direct, onDragEnd, moveItemsDirect. rewrite Hd, Ht, Hsnap.
    destruct (negb (String.eqb (searchTerm (grid s)) "")); [done|].
    destruct (length (sort_ascending (elements (indicesToMove dragData))))
      as [|n]; [done|].
    cbn [Nat.eqb Nat.ltb Nat.leb].
    match goal with |- context [match ?x with Some _ => _ | None => _ end] =>
      destruct x end; done. }
  split; [done|]. rewrite Heq. by destruct direct.
Qed.

Lemma drag_end_matches_direct_move_witness :
  file_data (outcome_state (onDragEnd hovering_state))
  = file_data (outcome_state (moveItemsDirect {[0]} 2 hovering_state)).
Proof.
  refine (proj1 (proj2 (proj2
    (drag_end_matches_direct_move hovering_state
       {| sourceIndex := 0; indicesToMove := {[0]};
          itemsSnapshot := allItems hovering_state |} 2 _ _ _))));
    reflexivity.
Defined.

(** ** Reorder *)

Section reorder_lemmas.
Implicit Types (M : gset nat) (items : list Item) (T : Z).

Lemma StronglySorted_seq j n : StronglySorted (≤) (seq j n).
Proof.
  revert j. induction n as [|n IH]; intros j; cbn; constructor; [done|].
  apply Forall_forall. intros k Hk. apply elem_of_seq in Hk. lia.
Qed.

Lemma StronglySorted_filter_list {A} (R : relation A) (P : A → Prop)
    `{!∀ x, Decision (P x)} (l : list A) :
  StronglySorted R l → StronglySorted R (filter P l).
Proof.
  induction 1 as [|x l Hl IH Hx]; [constructor|].
  rewrite filter_cons. destruct (decide (P x)); [|done].
  constructor; [done|]. apply Forall_forall. intros y Hy.
  apply list_elem_of_filter in Hy as [_ Hy].
  by eapply Forall_forall in Hx.
Qed.

Lemma sort_ascending_elements M n :
  (∀ m, m ∈ M → m < n) →
  sort_ascending (elements M) = filter (.∈ M) (seq 0 n).
Proof.
  intros Hb. unfold sort_ascending.
  apply (StronglySorted_unique (≤)).
  - apply StronglySorted_merge_sort; apply _.
  - apply StronglySorted_filter_list, StronglySorted_seq.
  - rewrite merge_sort_Permutation.
    apply NoDup_Permutation.
    + apply NoDup_elements.
    + apply NoDup_filter, NoDup_seq.
    + intros m. rewrite elem_of_elements, list_elem_of_filter, elem_of_seq.
      split; [intros ?; split; [done|split; [lia|by apply Hb]]|by intros [? _]].
Qed.


Lemma filteri_from_select {A} (p : nat → bool) (P : nat → Prop)
    `{!∀ i, Decision (P i)} (pre l : list A) :
  (∀ i, p i = true ↔ P i) →
  filteri_from (λ _ i, p i) (length pre) l
  = omap ((pre ++ l) !!.) (filter P (seq (length pre) (length l))).
Proof.
  intros Hp. revert pre. induction l as [|x l IH]; intros pre; [done|].
  cbn [filteri_from length seq]. rewrite filter_cons.
  specialize (IH (pre ++ [x])). rewrite length_app in IH. cbn [length] in IH.
  rewrite Nat.add_1_r, <-(assoc_L (++)) in IH. cbn [app] in IH.
  destruct (p (length pre)) eqn:Hpl.
  - rewrite decide_True by by apply Hp. simpl omap.
    rewrite list_lookup_middle by done. simpl. by rewrite IH.
  - rewrite decide_False by (rewrite <-Hp; congruence). done.
Qed.

Lemma array_filteri_stay M items :
  array_filteri (λ _ i, negb (set_has M i)) items = stay_items M items.
Proof.
  unfold array_filteri, stay_items, items_at.
  apply (filteri_from_select (λ i, negb (set_has M i)) (.∉ M) [] items).
  intros i. unfold set_has. rewrite negb_true_iff, bool_decide_eq_false. done.
Qed.

Lemma lookup_fmap_omap {A} (l : list A) (L : list nat) :
  Forall (λ i, i < length l) L →
  (λ i, l !! i) <$> L = Some <$> omap (l !!.) L.
Proof.
  induction 1 as [|i L Hi _ IH]; [done|].
  apply lookup_lt_is_Some in Hi as [x Hx].
  rewrite fmap_cons. simpl omap. rewrite Hx, fmap_cons. by f_equal.
Qed.

Lemma items_to_move M items :
  (∀ m, m ∈ M → m < length items) →
  (λ i, items !! i) <$> sort_ascending (elements M)
  = Some <$> move_items M items.
Proof.
  intros Hb. rewrite (sort_ascending_elements M (length items)) by done.
  apply lookup_fmap_omap, Forall_forall. intros i Hi.
  apply list_elem_of_filter in Hi as [_ Hi]. apply elem_of_seq in Hi. lia.
Qed.

Lemma length_move_items M items :
  (∀ m, m ∈ M → m < length items) → length (move_items M items) = size M.
Proof.
  intros Hb.
  assert (length (Some <$> move_items M items) = size M) as Hlen.
  { rewrite <-items_to_move by done. rewrite length_fmap.
    unfold sort_ascending. by rewrite merge_sort_Permutation. }
  by rewrite length_fmap in Hlen.
Qed.

Lemma array_filter_stdpp {A} (f : A → bool) (l : list A) :
  array_filter f l = filter (λ x, f x = true) l.
Proof.
  unfold array_filter. induction l as [|x l IH]; [done|].
  cbn [List.filter]. rewrite filter_cons, IH.
  destruct (f x); [by rewrite decide_True|by rewrite decide_False].
Qed.

Lemma count_selected_before M T :
  length (array_filter (λ i, (Z.of_nat i <? T)%Z) (sort_ascending (elements M)))
  = count_before M T.
Proof.
  unfold count_before, size, set_size; cbn.
  rewrite array_filter_stdpp. unfold sort_ascending.
  rewrite merge_sort_Permutation.
  apply Permutation_length, NoDup_Permutation.
  - apply NoDup_filter, NoDup_elements.
  - apply NoDup_elements.
  - intros m.
    rewrite list_elem_of_filter, !elem_of_elements, elem_of_filter, Z.ltb_lt.
    done.
Qed.

Lemma selection_block_set_seq (ins : Z) n :
  (0 ≤ ins)%Z → selection_block ins n = set_seq (Z.to_nat ins) n.
Proof.
  intros Hins. unfold selection_block.
  induction n as [|n IH]; [done|].
  rewrite seq_S, foldl_app, IH. cbn [foldl].
  rewrite set_seq_S_end_union_L.
  replace (Z.to_nat (ins + Z.of_nat (0 + n))) with (Z.to_nat ins + n) by lia.
  set_solver.
Qed.

Lemma insertion_index_clamp (T : Z) (count nstay : nat) :
  let ins := (T - Z.of_nat count)%Z in
  let ins := if (ins <? 0)%Z then 0%Z else ins in
  (if (Z.of_nat nstay <? ins)%Z then Z.of_nat nstay else ins)
  = clampZ 0 (Z.of_nat nstay) (T - Z.of_nat count).
Proof.
  cbv zeta. unfold clampZ.
  destruct (Z.ltb_spec (T - Z.of_nat count) 0).
  - destruct (Z.ltb_spec (Z.of_nat nstay) 0); lia.
  - destruct (Z.ltb_spec (Z.of_nat nstay) (T - Z.of_nat count)); lia.
Qed.

Lemma splice_insert_in_range {A} (arr items' : list A) (start : Z) :
  (0 ≤ start ≤ Z.of_nat (length arr))%Z →
  array_splice_insert arr start items'
  = take (Z.to_nat start) arr ++ items' ++ drop (Z.to_nat start) arr.
Proof.
  intros Hr. unfold array_splice_insert.
  destruct (Z.ltb_spec start 0); [lia|].
  by rewrite Z.min_l by lia.
Qed.

Lemma map_values_Some (l : list Item) :
  map_values (Some <$> l) = Some (value <$> l).
Proof.
  unfold map_values. apply mapM_Some.
  induction l; constructor; done.
Qed.

Lemma rebuild_object_Some (l : list Item) :
  rebuild_object (Some <$> l)
  = Some (foldl (λ newObj item,
                   obj_set (String_of_name (name item)) (value item) newObj)
                [] l).
Proof.
  unfold rebuild_object. generalize (@nil (string * JsonValue)).
  induction l as [|x l IH]; intros acc; [done|]. cbn. apply IH.
Qed.

Lemma moveItemsDirect_spec (s : State) M T :
  searchTerm (grid s) = "" →
  M ≠ ∅ →
  (∀ m, m ∈ M → m < length (allItems s)) →
  moveItemsDirect M T s
  = Returned (after_reorder
                (reserialize (currentLevelData s) (reorder_spec (allItems s) M T))
                (adjustedT (allItems s) M T) (size M) s).
Proof.
  intros Hsearch Hne Hb. unfold moveItemsDirect.
  rewrite Hsearch. cbn [String.eqb negb].
  assert (length (sort_ascending (elements M)) = size M) as Hlen.
  { unfold sort_ascending. by rewrite merge_sort_Permutation. }
  assert ((length (sort_ascending (elements M)) =? 0) = false) as ->.
  { rewrite Hlen. apply Nat.eqb_neq. intros Hsize.
    by apply size_empty_inv, leibniz_equiv in Hsize. }
  rewrite array_filteri_stay, items_to_move, count_selected_before by done.
  rewrite insertion_index_clamp.
  set (ins := clampZ 0 (Z.of_nat (length (stay_items M (allItems s))))
                (T - Z.of_nat (count_before M T))).
  assert (0 ≤ ins ≤ Z.of_nat (length (stay_items M (allItems s))))%Z as Hins.
  { unfold ins, clampZ. lia. }
  rewrite splice_insert_in_range by (by rewrite length_fmap).
  rewrite <-fmap_take, <-fmap_drop, <-!fmap_app.
  rewrite map_values_Some, rebuild_object_Some.
  rewrite length_fmap, length_move_items by done.
  rewrite selection_block_set_seq by lia.
  unfold after_reorder, reserialize, reorder_spec, adjustedT. fold ins.
  by destruct (isArray (currentLevelData s)).
Qed.

Lemma filteri_from_all {A} (p : A → nat → bool) k (l : list A) :
  (∀ x j, k ≤ j → p x j = true) → filteri_from p k l = l.
Proof.
  revert k. induction l as [|x l IH]; intros k Hp; [done|].
  cbn. rewrite Hp by done. f_equal. apply IH. intros; apply Hp; lia.
Qed.

Lemma filteri_from_delete {A} (l : list A) k i :
  filteri_from (λ _ j, negb (set_has {[k + i]} j)) k l = delete i l.
Proof.
  revert k i. induction l as [|x l IH]; intros k i; [done|].
  cbn [filteri_from]. unfold set_has at 1.
  destruct i as [|i].
  - rewrite bool_decide_eq_true_2 by set_solver. cbn.
    apply filteri_from_all. intros _ j Hj. unfold set_has.
    rewrite bool_decide_eq_false_2; [done|]. set_solver by lia.
  - rewrite bool_decide_eq_false_2 by (set_solver by lia). cbn.
    f_equal. replace (k + S i) with (S k + i) by lia. apply IH.
Qed.

Lemma stay_items_singleton items i : stay_items {[i]} items = delete i items.
Proof.
  rewrite <-array_filteri_stay. apply (filteri_from_delete items 0 i).
Qed.

Lemma sort_ascending_singleton i : sort_ascending (elements ({[i]} : gset nat)) = [i].
Proof. by rewrite elements_singleton. Qed.

Lemma move_items_singleton items i x :
  items !! i = Some x → move_items {[i]} items = [x].
Proof.
  intros Hx.
  assert (Some <$> move_items {[i]} items = Some <$> [x]) as Heq.
  { rewrite <-items_to_move.
    - rewrite sort_ascending_singleton. cbn. by rewrite Hx.
    - intros m ->%elem_of_singleton. by eapply lookup_lt_Some. }
  by apply (inj (fmap Some)) in Heq.
Qed.



Lemma value_itemize_array xs : value <$> itemize (JArray xs) = xs.
Proof.
  unfold itemize. cbn. rewrite fmap_imap.
  rewrite <-(list_fmap_id xs) at 2. rewrite <-imap_const.
  by apply imap_ext.
Qed.



End reorder_lemmas.





(** ** Effects *)

Section effects.
Context `{JsStrings}.
Implicit Types (s prev cur render queued : State).

Lemma currentData_ext s s' :
  app s = app s' → path (grid s) = path (grid s') →
  searchTerm (grid s) = searchTerm (grid s') →
  currentData s = currentData s'.
Proof.
  intros Ha Hp Hs.
  unfold currentData, filteredData, allItems, currentLevelData, file_data.
  by rewrite Ha, Hp, Hs.
Qed.

Lemma length_filterItems items term :
  length (filterItems items term) ≤ length items.
Proof.
  unfold filterItems. destruct (negb _); [|done].
  rewrite array_filter_stdpp. apply length_filter.
Qed.

Lemma length_currentData_reset s s' :
  app s = app s' → path (grid s) = path (grid s') →
  searchTerm (grid s') = "" →
  length (currentData s) ≤ length (currentData s').
Proof.
  intros Ha Hp Hs.
  unfold currentData, filteredData, allItems, currentLevelData, file_data.
  rewrite Hs, Ha, Hp. apply length_filterItems.
Qed.

(** What [clampEffect] does to focus and selection. *)
Lemma clampEffect_focus render queued :
  focusedIndex (grid (clampEffect render queued)) =
    match focusedIndex (grid render) with
    | Some f =>
        if length (currentData render) =? 0 then None
        else if length (currentData render) <=? f
             then Some (length (currentData render) - 1)
             else focusedIndex (grid queued)
    | None => focusedIndex (grid queued)
    end.
Proof.
  unfold clampEffect. destruct (focusedIndex (grid render)); [|done].
  destruct (_ =? 0); [done|]. by destruct (_ <=? _).
Qed.


Lemma clampEffect_rest render queued :
  app (clampEffect render queued) = app queued ∧
  path (grid (clampEffect render queued)) = path (grid queued) ∧
  pathIdentity (grid (clampEffect render queued)) = pathIdentity (grid queued) ∧
  searchTerm (grid (clampEffect render queued)) = searchTerm (grid queued) ∧
  console_errors (clampEffect render queued) = console_errors queued.
Proof.
  unfold clampEffect. destruct (focusedIndex (grid render)); [|done].
  destruct (_ =? 0); [done|]. by destruct (_ <=? _).
Qed.

Lemma effects_pass_rest prev cur :
  app (effects_pass prev cur) = app cur ∧
  path (grid (effects_pass prev cur)) = path (grid cur) ∧
  pathIdentity (grid (effects_pass prev cur)) = pathIdentity (grid cur) ∧
  console_errors (effects_pass prev cur) = console_errors cur.
Proof.
  unfold effects_pass.
  destruct (_ && _);
    [|destruct (clampEffect_rest cur
          (if pathIdentity (grid prev) =? pathIdentity (grid cur)
           then cur else pathEffect cur)) as (-> & -> & -> & _ & ->)];
    by destruct (pathIdentity _ =? _).
Qed.

Lemma effects_pass_length prev cur :
  length (currentData cur) ≤ length (currentData (effects_pass prev cur)).
Proof.
  destruct (effects_pass_rest prev cur) as (Ha & Hp & _).
  unfold effects_pass in *.
  destruct (pathIdentity (grid prev) =? pathIdentity (grid cur)).
  - apply Nat.eq_le_incl. f_equal. apply currentData_ext; try done.
    destruct (_ && _); [done|].
    by destruct (clampEffect_rest cur cur) as (_ & _ & _ & -> & _).
  - apply length_currentData_reset; try done.
    destruct (_ && _); [done|].
    by destruct (clampEffect_rest cur (pathEffect cur)) as (_ & _ & _ & -> & _).
Qed.

Lemma focus_eqb_eq a b : focus_eqb a b = true ↔ a = b.
Proof.
  destruct a, b; cbn; rewrite ?Nat.eqb_eq; naive_solver.
Qed.

(** One pass leaves the focus in range when the previous render had it in
    range. *)
Lemma effects_pass_focus_in_range prev cur :
  focus_in_range prev → focus_in_range (effects_pass prev cur).
Proof.
  intros Hprev. pose proof (effects_pass_length prev cur) as Hlen.
  unfold focus_in_range in *. revert Hlen. unfold effects_pass.
  destruct (_ && _) eqn:Hdeps.
  - apply andb_prop in Hdeps as [Hl%Nat.eqb_eq Hf%focus_eqb_eq].
    destruct (pathIdentity _ =? _); [|done].
    rewrite <-Hf. destruct (focusedIndex (grid prev)); [|done]. lia.
  - rewrite clampEffect_focus.
    destruct (focusedIndex (grid cur)) as [f|] eqn:Hf.
    + destruct (Nat.eqb_spec (length (currentData cur)) 0); [done|].
      destruct (Nat.leb_spec (length (currentData cur)) f); [lia|].
      destruct (pathIdentity _ =? _); [|done]. rewrite Hf. lia.
    + destruct (pathIdentity _ =? _); [|done]. by rewrite Hf.
Qed.

(** A pass without a change of path leaves a focus that was in range in
    range. *)
Lemma effects_pass_same_path_focus prev cur :
  pathIdentity (grid prev) = pathIdentity (grid cur) →
  focus_in_range cur → effects_pass prev cur = cur.
Proof.
  intros Hid Hcur. unfold effects_pass, focus_in_range in *.
  rewrite Hid, Nat.eqb_refl. destruct (_ && _); [done|].
  unfold clampEffect. destruct (focusedIndex (grid cur)) as [f|]; [|done].
  destruct (Nat.eqb_spec (length (currentData cur)) 0); [lia|].
  destruct (Nat.leb_spec (length (currentData cur)) f); [lia|done].
Qed.

Lemma settle_focus_in_range prev cur :
  focus_in_range prev → focus_in_range (settle prev cur).
Proof.
  intros Hprev. unfold settle.
  rewrite effects_pass_same_path_focus; [by apply effects_pass_focus_in_range| |].
  - by destruct (effects_pass_rest prev cur) as (_ & _ & -> & _).
  - by apply effects_pass_focus_in_range.
Qed.

(** No further render changes the settled state. *)
Lemma settle_stable prev cur :
  focus_in_range prev →
  effects_pass (effects_pass prev cur) (settle prev cur) = settle prev cur.
Proof.
  intros Hprev. apply effects_pass_same_path_focus.
  - unfold settle.
    by destruct (effects_pass_rest cur (effects_pass prev cur)) as (_ & _ & -> & _).
  - by apply settle_focus_in_range.
Qed.

Lemma settle_eq_pass prev cur :
  focus_in_range prev → settle prev cur = effects_pass prev cur.
Proof.
  intros Hprev. unfold settle. apply effects_pass_same_path_focus.
  - by destruct (effects_pass_rest prev cur) as (_ & _ & -> & _).
  - by apply effects_pass_focus_in_range.
Qed.

End effects.

(** ** Delete *)

Section delete_lemmas.
Context `{JsStrings}.
Implicit Types (s : State) (xs : list JsonValue).


Lemma filteri_from_ext {A} (p q : A → nat → bool) k (l : list A) :
  (∀ x j, k ≤ j < k + length l → p x j = q x j) →
  filteri_from p k l = filteri_from q k l.
Proof.
  revert k. induction l as [|x l IH]; intros k Hpq; [done|]. cbn.
  rewrite (Hpq x k) by (cbn; lia).
  rewrite (IH (S k)) by (intros; apply Hpq; cbn; lia). done.
Qed.

Lemma items_at_filteri {A} (P : nat → Prop) `{!∀ i, Decision (P i)} (l : list A) :
  items_at P l = filteri_from (λ _ i, bool_decide (P i)) 0 l.
Proof.
  unfold items_at. symmetry.
  apply (filteri_from_select (λ i, bool_decide (P i)) P [] l).
  intros i. apply bool_decide_eq_true.
Qed.















End delete_lemmas.

Section clamp_lemmas.
Context `{JsStrings}.
Implicit Types (s prev cur : State).





End clamp_lemmas.




(** ** Selection clamp *)







(** * Further properties *)

Ltac solve_legal :=
  cbn; repeat (eexists; split; [reflexivity|cbn]); exact I.

(** ** Filtering and loading *)

(** X1.  The filter only hides cards: with an empty search term every item is
    displayed, and for any term the displayed items are a sublist of all
    items, in the same order, so there are never more of them. *)
Theorem filter_keeps_order (B : JsStrings) (items : list Item) :
  filterItems items "" = items ∧
  (∀ term, filterItems items term `sublist_of` items) ∧
  (∀ term item, item ∈ filterItems items term → item ∈ items) ∧
  (∀ term, length (filterItems items term) ≤ length items).
Proof.
  split; [done|].
  assert (∀ term, filterItems items term `sublist_of` items) as Hsub.
  { intros term. unfold filterItems. destruct (negb _); [|done].
    rewrite array_filter_stdpp. apply sublist_filter. }
  split; [done|]. split.
  - intros term item Hin. by eapply elem_of_sublist.
  - intros term. by apply sublist_length.
Qed.

Section loading.
Implicit Types (json v : JsonValue).

Lemma is_possibleArray_spec v :
  is_possibleArray v = true →
  ∃ x xs, v = JArray (x :: xs) ∧ typeof x = "object".
Proof.
  destruct v as [| | | | |[|x xs]|]; cbn; try done.
  intros Ht. exists x, xs. split; [done|]. by apply String.eqb_eq.
Qed.

(** [find] returns the first element that satisfies the predicate. *)
Lemma array_find_first {A} (p : A → bool) (l : list A) :
  match array_find p l with
  | Some x => ∃ before after, l = before ++ x :: after ∧ p x = true ∧
                              Forall (λ y, p y = false) before
  | None => Forall (λ y, p y = false) l
  end.
Proof.
  unfold array_find. induction l as [|y l IH]; cbn; [done|].
  destruct (p y) eqn:Hy.
  - by exists [], l.
  - destruct (List.find p l) as [x|].
    + destruct IH as (before & after & -> & Hx & Hbefore).
      exists (y :: before), after. split; [done|]. split; [done|].
      by constructor.
    + by constructor.
Qed.
End loading.

(** X2.  Loading an object never fails.  When one of its values is a non-empty
    array whose first element has type [object], the first such value becomes
    the document as it is, without the filtering a top-level array gets;
    otherwise the document is the one-element array holding the object.  The
    history starts afresh and the error is cleared.  Loading anything that is
    neither an array nor an object is rejected: the error is set, meta data
    and history stay. *)
Theorem load_object_or_primitive (name : string) (size : N) (a : App) :
  (∀ kvs,
     let a' := processJsonData (JObject kvs) name size a in
     error a' = None ∧ meta a' = Some (mkMeta name size) ∧
     past (history a') = [] ∧ future (history a') = [] ∧
     ((∃ before x xs after,
         kvs.*2 = before ++ JArray (x :: xs) :: after ∧
         Forall (λ v, is_possibleArray v = false) before ∧
         typeof x = "object" ∧
         present (history a') = JArray (x :: xs)) ∨
      (Forall (λ v, is_possibleArray v = false) kvs.*2 ∧
       present (history a') = JArray [JObject kvs]))) ∧
  (∀ json, ¬ nonnull_object json →
     processJsonData json name size a =
       {| meta := meta a; history := history a;
          error := Some load_error_message |}).
Proof.
  split.
  - intros kvs a'. unfold a', processJsonData, dataToDisplay.
    pose proof (array_find_first is_possibleArray kvs.*2) as Hfind.
    destruct (array_find is_possibleArray kvs.*2) as [picked|].
    + destruct Hfind as (before & after & Hkvs & Hp & Hbefore).
      destruct (is_possibleArray_spec _ Hp) as (x & xs & -> & Hx).
      cbn. split_and!; try done. left. by exists before, x, xs, after.
    + cbn. split_and!; try done. by right.
  - intros json Hobj. by destruct json.
Qed.

(** ** Sequences of updates *)

Section history_composition.
Implicit Types (h : History) (d : JsonValue) (docs : list JsonValue).

Lemma undo_redo h : future h ≠ [] → undo (redo h) = h.
Proof.
  destruct h as [pst d fut]. cbn [future]. intros Hf.
  destruct fut as [|d' fut]; [done|].
  by rewrite redo_cons, undo_snoc.
Qed.

Lemma handleDataUpdate_null h d :
  truthy (present h) = false → handleDataUpdate d h = h.
Proof. intros Ht. unfold handleDataUpdate. by rewrite Ht. Qed.

(** A push extends the timeline, dropping its first entry when the past is
    full. *)
Lemma timeline_push h d :
  truthy (present h) = true →
  timeline (handleDataUpdate d h)
  = (if MAX_HISTORY <? length (timeline h) then drop 1 (timeline h)
     else timeline h) ++ [d].
Proof.
  intros Ht. unfold timeline, handleDataUpdate, array_shift. by rewrite Ht.
Qed.

Lemma push_all_snoc docs d h :
  push_all (docs ++ [d]) h = handleDataUpdate d (push_all docs h).
Proof. unfold push_all. by rewrite foldl_app. Qed.

Lemma push_all_timeline docs h :
  truthy (present h) = true →
  Forall (λ d, truthy d = true) docs →
  length docs ≤ MAX_HISTORY →
  ∃ front, timeline (push_all docs h) = front ++ present h :: docs ∧
           front `suffix_of` past h ∧
           (length (past h) + length docs ≤ MAX_HISTORY → front = past h) ∧
           future (push_all docs h) = (if docs is [] then future h else []) ∧
           truthy (present (push_all docs h)) = true.
Proof.
  intros Ht. induction docs as [|d docs IH] using rev_ind; intros Hdocs Hlen.
  - exists (past h). by repeat split.
  - apply Forall_app in Hdocs as [Hdocs Hd].
    apply Forall_inv in Hd.
    rewrite length_app in Hlen. cbn in Hlen.
    destruct IH as (front & Htl & Hsuf & Hroom' & _ & Hpres); [done|lia|].
    rewrite push_all_snoc, timeline_push, Htl by done.
    assert (present (handleDataUpdate d (push_all docs h)) = d) as Hp.
    { by apply handleDataUpdate_present. }
    assert (future (handleDataUpdate d (push_all docs h)) = []) as Hf.
    { by apply handleDataUpdate_future. }
    rewrite Hp, Hf.
    destruct (Nat.ltb_spec MAX_HISTORY (length (front ++ present h :: docs)))
      as [Hfull|Hroom].
    + destruct front as [|x front].
      { cbn in Hfull. lia. }
      exists front. cbn. rewrite drop_0, <-app_assoc. cbn.
      split; [done|]. split; [|split; [|split]].
      * etrans; [|exact Hsuf]. by apply suffix_cons_r.
      * intros Hr. rewrite length_app in Hr. cbn in Hr.
        specialize (Hroom' ltac:(lia)). rewrite <-Hroom' in Hr.
        rewrite length_app in Hfull. cbn in Hfull, Hr. lia.
      * by destruct docs.
      * exact Hd.
    + exists front. rewrite <-app_assoc. cbn.
      split; [done|]. split; [done|]. split; [|split].
      * intros Hr. apply Hroom'. rewrite length_app in Hr. cbn in Hr. lia.
      * by destruct docs.
      * exact Hd.
Qed.

Lemma undo_all (rest : list JsonValue) :
  ∀ h front v,
    timeline h = front ++ v :: rest →
    Nat.iter (length rest) undo h
    = {| past := front; present := v; future := rest ++ future h |}.
Proof.
  induction rest as [|x rest IH] using rev_ind; intros h front v Htl.
  - destruct h as [pst d fut]. unfold timeline in Htl. cbn in *.
    apply app_inj_tail in Htl as [-> ->]. done.
  - rewrite length_app. cbn [length]. rewrite Nat.add_1_r, Nat.iter_succ_r.
    destruct h as [pst d fut]. unfold timeline in Htl. cbn in Htl.
    rewrite app_comm_cons, app_assoc in Htl.
    apply app_inj_tail in Htl as [-> ->].
    assert (∃ pst' y, front ++ v :: rest = pst' ++ [y]) as (pst' & y & Heq).
    { destruct (exists_last (l:=front ++ v :: rest)) as (p & y & ->); [|eauto].
      by destruct front. }
    rewrite Heq, undo_snoc.
    rewrite (IH _ front v); [|unfold timeline; cbn; by rewrite <-Heq].
    cbn. by rewrite <-app_assoc.
Qed.
End history_composition.

(** X3.  After any sequence of at most [MAX_HISTORY] updates on a loaded
    document, as many undos bring back the document the sequence started
    from; the updates are then all waiting in the redo list, in order, and
    the older snapshots are still those from before, or a suffix of them when
    the bound made the history forget the oldest. *)
Theorem pushes_then_undos (h : History) (docs : list JsonValue) :
  truthy (present h) = true →
  Forall (λ d, truthy d = true) docs →
  length docs ≤ MAX_HISTORY →
  let h' := Nat.iter (length docs) undo (push_all docs h) in
  present h' = present h ∧
  past h' `suffix_of` past h ∧
  (docs ≠ [] → future h' = docs) ∧
  (length (past h) + length docs ≤ MAX_HISTORY → past h' = past h).
Proof.
  intros Ht Hdocs Hlen.
  destruct (push_all_timeline docs h Ht Hdocs Hlen)
    as (front & Htl & Hsuf & Hroom & Hfut & _).
  cbv zeta. rewrite (undo_all docs _ front (present h) Htl). cbn.
  split; [done|]. split; [done|]. split.
  - intros Hne. rewrite Hfut. destruct docs; [done|]. by rewrite app_nil_r.
  - done.
Qed.

Lemma pushes_then_undos_witness :
  present (Nat.iter 2 undo (push_all [JArray []; JArray [JNull]] sample_history))
  = present sample_history.
Proof.
  refine (proj1 (pushes_then_undos sample_history [JArray []; JArray [JNull]] _ _ _)).
  - reflexivity.
  - repeat constructor.
  - vm_compute. lia.
Defined.

(** ** Edits below an entry *)

Section path_edit.
Implicit Types (d v w : JsonValue) (p : list Name).

Lemma obj_lookup_replace_eq k v x kvs :
  obj_lookup k kvs = Some x → obj_lookup k (obj_replace k v kvs) = Some v.
Proof.
  induction kvs as [|[k0 v0] kvs IH]; [done|]. cbn.
  destruct (String.eqb_spec k0 k) as [->|Hne]; cbn.
  - by rewrite String.eqb_refl.
  - rewrite (proj2 (String.eqb_neq _ _) Hne). apply IH.
Qed.

Lemma obj_replace_keys k v kvs : (obj_replace k v kvs).*1 = kvs.*1.
Proof.
  induction kvs as [|[k0 v0] kvs IH]; [done|]. cbn.
  destruct (String.eqb k0 k); cbn; [done|]. by rewrite IH.
Qed.

Lemma get_prop_set_prop_same d a p w :
  legal_path d (a :: p) → get_prop (set_prop (clone_level d) a w) a = w.
Proof.
  destruct d as [| | | | |xs|kvs], a as [k|i]; cbn [legal_path]; try done.
  - intros (v & Hv & _). cbn.
    rewrite (array_set_present _ _ _ _ Hv).
    by rewrite list_lookup_insert_eq by by eapply lookup_lt_Some.
  - intros (v & Hv & _). cbn.
    by rewrite (obj_set_present _ _ _ _ Hv), (obj_lookup_replace_eq _ _ _ _ Hv).
Qed.

Lemma resolvePath_setDeep_same d p w :
  legal_path d p → resolvePath (setDeep d p w) p = w.
Proof.
  revert d. induction p as [|a p IH]; intros d Hl; [done|].
  rewrite setDeep_cons_legal by done.
  destruct (legal_path_cons _ _ _ Hl) as (v & Hv & Hp & _ & _ & _ & Hobj).
  cbn [resolvePath]. rewrite Hobj, (get_prop_set_prop_same _ _ p) by done.
  subst v. by apply IH.
Qed.

Lemma setDeep_shape d a p w :
  legal_path d (a :: p) →
  match d with
  | JArray xs =>
      ∃ ys, setDeep d (a :: p) w = JArray ys ∧ length ys = length xs
  | JObject kvs =>
      ∃ kvs', setDeep d (a :: p) w = JObject kvs' ∧ kvs'.*1 = kvs.*1
  | _ => False
  end.
Proof.
  intros Hl. rewrite setDeep_cons_legal by done.
  destruct d as [| | | | |xs|kvs], a as [k|i]; cbn [legal_path] in Hl; try done.
  - destruct Hl as (v & Hv & _). eexists. cbn.
    rewrite (array_set_present _ _ _ _ Hv). split; [done|].
    by rewrite length_insert.
  - destruct Hl as (v & Hv & _). eexists. cbn.
    rewrite (obj_set_present _ _ _ _ Hv). split; [done|].
    apply obj_replace_keys.
Qed.
End path_edit.

(** X7.  An edit below an existing entry keeps the container as it is on the
    outside: an array stays an array, an object an object, with the same
    number of cards under the same names in the same order. *)
Theorem nested_edit_keeps_shape (D : JsonValue) (a : Name) (P : list Name)
    (v : JsonValue) :
  legal_path D (a :: P) →
  isArray (setDeep D (a :: P) v) = isArray D ∧
  length (itemize (setDeep D (a :: P) v)) = length (itemize D) ∧
  name <$> itemize (setDeep D (a :: P) v) = name <$> itemize D.
Proof.
  intros Hl. pose proof (setDeep_shape D a P v Hl) as Hs.
  destruct D as [| | | | |xs|kvs]; try done.
  - destruct Hs as (ys & -> & Hlen). split; [done|].
    unfold itemize. cbn. rewrite !length_imap. split; [done|].
    rewrite !fmap_imap.
    rewrite (imap_ext _ (λ i _, NIdx i) ys), (imap_ext _ (λ i _, NIdx i) xs) by done.
    by rewrite !imap_seq_0, Hlen.
  - destruct Hs as (kvs' & -> & Hkeys). split; [done|].
    unfold itemize. cbn. rewrite !length_fmap.
    split.
    + by rewrite <-(length_fmap fst kvs'), Hkeys, length_fmap.
    + rewrite <-!list_fmap_compose.
      change (name ∘ _) with (NKey ∘ (fst : string * JsonValue → string)).
      by rewrite !(list_fmap_compose fst NKey), Hkeys.
Qed.

Lemma nested_edit_keeps_shape_witness :
  isArray (setDeep sample_doc [NIdx 0; NKey "id"] JNull) = isArray sample_doc.
Proof.
  refine (proj1 (nested_edit_keeps_shape sample_doc (NIdx 0) [NKey "id"] JNull _)).
  solve_legal.
Defined.

(** ** Entries made up by [setDeep] *)

Section missing_containers.
Implicit Types (d v w : JsonValue) (p : list Name).







End missing_containers.




(** ** Reorder under a filter, and as a permutation *)

Section reorder_more.
Context `{JsStrings}.
Implicit Types (s : State) (M : gset nat) (items : list Item) (T : Z).

Lemma arrow_key_cases (e : KeyboardEvent) :
  is_arrow_key e = true →
  key e = "ArrowUp" ∨ key e = "ArrowDown" ∨ key e = "ArrowLeft" ∨ key e = "ArrowRight".
Proof.
  unfold is_arrow_key, key_is. rewrite !orb_true_iff, !String.eqb_eq. tauto.
Qed.

Lemma handleKeyDown_ctrl_arrow_filtering (e : KeyboardEvent) (dom : DomEnv) s :
  searchTerm (grid s) ≠ "" → ctrlKey e = true → is_arrow_key e = true →
  handleKeyDown e dom s = Returned s.
Proof.
  intros Hsearch Hctrl Harrow.
  apply String.eqb_neq in Hsearch.
  unfold handleKeyDown, is_arrow_key, key_is in *. rewrite Hctrl, Hsearch.
  destruct (arrow_key_cases e Harrow) as [Hk|[Hk|[Hk|Hk]]]; rewrite Hk; cbn;
    rewrite ?andb_false_r; cbn;
    repeat match goal with
    | |- (if ?c then _ else _) = _ => destruct c; try done
    end.
Qed.

Lemma moveItemsDirect_filtering M T s :
  searchTerm (grid s) ≠ "" → moveItemsDirect M T s = Returned s.
Proof.
  intros Hsearch%String.eqb_neq. unfold moveItemsDirect. by rewrite Hsearch.
Qed.

Lemma onDragEnd_filtering s :
  searchTerm (grid s) ≠ "" → onDragEnd s = Returned (dragCleanup s).
Proof.
  intros Hsearch%String.eqb_neq. unfold onDragEnd. rewrite Hsearch.
  destruct (dragDataRef _); [|done]. by destruct (dropTargetRef _).
Qed.

Lemma onDragStart_filtering i s :
  searchTerm (grid s) ≠ "" → onDragStart i s = s.
Proof.
  intros Hsearch%String.eqb_neq. unfold onDragStart. by rewrite Hsearch.
Qed.

(** The items kept and the items taken out make up the list. *)
Lemma filteri_from_partition {A} (p : nat → bool) k (l : list A) :
  filteri_from (λ _ i, p i) k l ++ filteri_from (λ _ i, negb (p i)) k l ≡ₚ l.
Proof.
  revert k. induction l as [|x l IH]; intros k; [done|].
  cbn [filteri_from]. destruct (p k); cbn.
  - constructor. apply IH.
  - rewrite <-Permutation_middle. constructor. apply IH.
Qed.

Lemma stay_move_Permutation M items :
  stay_items M items ++ move_items M items ≡ₚ items.
Proof.
  unfold stay_items, move_items. rewrite !items_at_filteri.
  rewrite (filteri_from_ext (λ _ i, bool_decide (i ∈ M))
             (λ _ i, negb (bool_decide (i ∉ M))) 0 items).
  - apply (filteri_from_partition (λ i, bool_decide (i ∉ M))).
  - intros _ j _. by rewrite bool_decide_not, negb_involutive.
Qed.

Lemma reorder_spec_Permutation items M T : reorder_spec items M T ≡ₚ items.
Proof.
  unfold reorder_spec.
  rewrite (Permutation_app_comm (move_items M items)), app_assoc, take_drop.
  apply stay_move_Permutation.
Qed.
End reorder_more.

(** X8.  While a search term is set nothing can be reordered: the move
    functions return at once, Ctrl+Arrow does nothing, a drag does not start,
    and the end of a drag only clears the drag state; the document is not
    touched. *)
Theorem reorder_disabled_while_filtering (B : JsStrings) (s : State) :
  searchTerm (grid s) ≠ "" →
  (∀ M T, moveItemsDirect M T s = Returned s) ∧
  (∀ T, handleMoveItems T s = Returned s) ∧
  (∀ e dom, ctrlKey e = true → is_arrow_key e = true →
            handleKeyDown e dom s = Returned s) ∧
  (∀ index, onDragStart index s = s) ∧
  onDragEnd s = Returned (dragCleanup s) ∧
  app (dragCleanup s) = app s.
Proof.
  intros Hsearch. split; [|split; [|split; [|split; [|split]]]].
  - intros M T. by apply moveItemsDirect_filtering.
  - intros T. by apply moveItemsDirect_filtering.
  - intros e dom. by apply handleKeyDown_ctrl_arrow_filtering.
  - intros i. by apply onDragStart_filtering.
  - by apply onDragEnd_filtering.
  - done.
Qed.

Lemma reorder_disabled_while_filtering_witness :
  moveItemsDirect {[0]} 2 filtered_state = Returned filtered_state.
Proof.
  refine (proj1 (reorder_disabled_while_filtering sample_strings filtered_state _)
            {[0]} 2%Z).
  discriminate.
Defined.

(** X9.  A reorder of an array loses nothing and duplicates nothing: the array
    handed to the update is a permutation of the current one, of the same
    length. *)
Theorem reorder_is_permutation (s : State) (M : gset nat) (T : Z)
    (xs : list JsonValue) :
  searchTerm (grid s) = "" →
  M ≠ ∅ →
  (∀ m, m ∈ M → m < length (allItems s)) →
  currentLevelData s = JArray xs →
  ∃ ys, ys ≡ₚ xs ∧ length ys = length xs ∧
        moveItemsDirect M T s
        = Returned (after_reorder (JArray ys) (adjustedT (allItems s) M T)
                                  (size M) s).
Proof.
  intros Hsearch Hne Hb Hxs.
  exists (value <$> reorder_spec (allItems s) M T).
  assert (value <$> reorder_spec (allItems s) M T ≡ₚ xs) as Hperm.
  { rewrite reorder_spec_Permutation. unfold allItems. rewrite Hxs.
    by rewrite value_itemize_array. }
  split; [done|]. split; [by rewrite Hperm|].
  rewrite moveItemsDirect_spec by done.
  unfold reserialize. by rewrite Hxs.
Qed.

Lemma reorder_is_permutation_witness :
  ∃ ys, ys ≡ₚ [JObject [("id", JNumber 1);
                        ("tags", JArray [JString "x"; JString "y"])];
               JObject [("id", JNumber 2)]] ∧
        length ys = 2 ∧
        moveItemsDirect {[0]} 2 loaded_state
        = Returned (after_reorder (JArray ys)
                      (adjustedT (allItems loaded_state) {[0]} 2)
                      (size ({[0]} : gset nat)) loaded_state).
Proof.
  refine (reorder_is_permutation loaded_state {[0]} 2%Z _ _ _ _ _).
  - reflexivity.
  - exact (bool_decide_unpack ({[0]} ≠ (∅ : gset nat)) I).
  - intros m Hm. apply elem_of_singleton in Hm. subst m. vm_compute. lia.
  - reflexivity.
Defined.

(** ** The view after a reorder *)

Section accepted_update.
Context `{JsStrings}.
Implicit Types (s : State) (M : gset nat) (items : list Item) (T : Z).

Lemma updateDataAtCurrentPath_accepted newData s :
  update_accepted newData s →
  updateDataAtCurrentPath newData s
    = onUpdate (setDeep (file_data s) (path (grid s)) newData) s ∧
  file_data (updateDataAtCurrentPath newData s)
    = setDeep (file_data s) (path (grid s)) newData ∧
  currentLevelData (updateDataAtCurrentPath newData s) = newData ∧
  history (app (updateDataAtCurrentPath newData s))
    = handleDataUpdate (setDeep (file_data s) (path (grid s)) newData)
                       (history (app s)).
Proof.
  intros (Ht & Hl & Hroot).
  assert (updateDataAtCurrentPath newData s
          = onUpdate (setDeep (file_data s) (path (grid s)) newData) s) as Heq.
  { unfold updateDataAtCurrentPath.
    destruct (path (grid s)) as [|a p] eqn:Hp; [|done].
    cbn. by rewrite Hroot. }
  rewrite Heq. split; [done|].
  assert (file_data (onUpdate (setDeep (file_data s) (path (grid s)) newData) s)
          = setDeep (file_data s) (path (grid s)) newData) as Hfd.
  { unfold file_data, onUpdate. cbn. apply handleDataUpdate_present. exact Ht. }
  split; [done|]. split; [|done].
  unfold currentLevelData. rewrite Hfd. cbn.
  by apply resolvePath_setDeep_same.
Qed.

Lemma adjustedT_le items M T :
  adjustedT items M T ≤ length (stay_items M items).
Proof. unfold adjustedT, clampZ. lia. Qed.

Lemma length_stay_move M items :
  length (stay_items M items) + length (move_items M items) = length items.
Proof. by rewrite <-length_app, stay_move_Permutation. Qed.

Lemma length_itemize_array xs : length (itemize (JArray xs)) = length xs.
Proof. by rewrite <-(value_itemize_array xs) at 2; rewrite length_fmap. Qed.
End accepted_update.

(** X10.  After an accepted reorder of an array the cards shown are the
    reordered values, the moved items sit next to each other from the
    adjusted target on, and exactly they are selected, with focus and anchor
    on the first of them; every selected index and the focus name a displayed
    card. *)
Theorem moved_block_is_selected (B : JsStrings) (s : State) (M : gset nat)
    (T : Z) (xs : list JsonValue) :
  searchTerm (grid s) = "" →
  M ≠ ∅ →
  (∀ m, m ∈ M → m < length (allItems s)) →
  currentLevelData s = JArray xs →
  truthy (file_data s) = true →
  legal_path (file_data s) (path (grid s)) →
  let s' := outcome_state (moveItemsDirect M T s) in
  let adj := adjustedT (allItems s) M T in
  value <$> allItems s' = value <$> reorder_spec (allItems s) M T ∧
  selectedIndices (grid s') = set_seq adj (size M) ∧
  focusedIndex (grid s') = Some adj ∧
  anchorIndexRef (grid s') = Some adj ∧
  value <$> take (size M) (drop adj (allItems s'))
    = value <$> move_items M (allItems s) ∧
  selection_in_range s' ∧ focus_in_range s'.
Proof.
  intros Hsearch Hne Hb Hxs Ht Hl s' adj.
  pose proof (moveItemsDirect_spec s M T Hsearch Hne Hb) as Hspec.
  unfold reserialize in Hspec. rewrite Hxs in Hspec. cbn [isArray] in Hspec.
  set (ys := value <$> reorder_spec (allItems s) M T) in *.
  destruct (updateDataAtCurrentPath_accepted (JArray ys) s) as (_ & _ & Hcld & _).
  { by repeat split. }
  assert (allItems s' = itemize (JArray ys)) as Hitems.
  { unfold s'. rewrite Hspec. cbn [outcome_state]. unfold allItems.
    f_equal. exact Hcld. }
  assert (currentData s' = allItems s') as Hcd.
  { unfold currentData, filteredData, s'. rewrite Hspec. cbn [outcome_state].
    unfold after_reorder, updateDataAtCurrentPath.
    destruct (_ && _); cbn; by rewrite Hsearch. }
  assert (length (allItems s') = length (allItems s)) as Hlen.
  { rewrite Hitems, length_itemize_array. unfold ys.
    by rewrite length_fmap, reorder_spec_Permutation. }
  pose proof (adjustedT_le (allItems s) M T) as Hadj. fold adj in Hadj.
  pose proof (length_stay_move M (allItems s)) as Hsm.
  pose proof (length_move_items M (allItems s) Hb) as Hmove.
  assert (0 < size M) as Hpos.
  { assert (size M ≠ 0); [|lia]. apply size_non_empty_iff. by intros ?%leibniz_equiv. }
  split; [by rewrite Hitems, value_itemize_array|].
  unfold s' at 1 2 3. rewrite Hspec. cbn [outcome_state].
  do 3 (split; [done|]). split; [|split].
  - rewrite fmap_take, fmap_drop, Hitems, value_itemize_array.
    unfold ys, reorder_spec. fold adj.
    rewrite !fmap_app, drop_app_length'
      by (rewrite length_fmap, length_take; lia).
    by rewrite take_app_length' by (rewrite length_fmap; lia).
  - intros i. unfold s' at 1. rewrite Hspec. cbn. rewrite Hcd, Hlen.
    intros Hi%elem_of_set_seq. lia.
  - unfold focus_in_range. unfold s' at 1. rewrite Hspec. cbn.
    rewrite Hcd, Hlen. lia.
Qed.

Lemma moved_block_is_selected_witness :
  selectedIndices (grid (outcome_state (moveItemsDirect {[0]} 2 loaded_state)))
  = set_seq (adjustedT (allItems loaded_state) {[0]} 2) (size ({[0]} : gset nat)).
Proof.
  refine (proj1 (proj2 (moved_block_is_selected sample_strings loaded_state {[0]}
                          2%Z _ _ _ _ _ _ _))).
  - reflexivity.
  - exact (bool_decide_unpack ({[0]} ≠ (∅ : gset nat)) I).
  - intros m Hm. apply elem_of_singleton in Hm. subst m. vm_compute. lia.
  - reflexivity.
  - reflexivity.
  - exact I.
Defined.

(** ** Moving a single card *)

Section single_move.
Context `{JsStrings}.
Implicit Types (s : State) (items : list Item) (T : Z) (xs : list JsonValue).

Lemma count_before_singleton i T :
  count_before {[i]} T = if (Z.of_nat i <? T)%Z then 1 else 0.
Proof.
  rewrite <-count_selected_before, sort_ascending_singleton. cbn.
  by destruct (_ <? _)%Z.
Qed.

(** The new array when the single element [i] of an array is moved. *)
Lemma move_single_array s xs i x T :
  searchTerm (grid s) = "" →
  currentLevelData s = JArray xs →
  xs !! i = Some x →
  let adj := Z.to_nat (clampZ 0 (Z.of_nat (length xs - 1))
               (T - (if (Z.of_nat i <? T)%Z then 1 else 0))) in
  moveItemsDirect {[i]} T s
  = Returned (after_reorder
                (JArray (take adj (delete i xs) ++ [x] ++ drop adj (delete i xs)))
                adj 1 s).
Proof.
  intros Hsearch Hxs Hx adj.
  assert (allItems s !! i = Some {| name := NIdx i; value := x |}) as Hitem.
  { unfold allItems. rewrite Hxs. unfold itemize. cbn.
    by rewrite list_lookup_imap, Hx. }
  pose proof (lookup_lt_Some _ _ _ Hx) as Hlt.
  rewrite moveItemsDirect_spec; [|done|set_solver|].
  2:{ intros m ->%elem_of_singleton. by eapply lookup_lt_Some. }
  assert (adjustedT (allItems s) {[i]} T = adj) as Hadj.
  { unfold adjustedT, adj. rewrite count_before_singleton, stay_items_singleton.
    rewrite length_delete by eauto. unfold allItems. rewrite Hxs.
    rewrite length_itemize_array. by destruct (_ <? _)%Z. }
  rewrite Hadj, size_singleton. f_equal. f_equal.
  unfold reserialize, reorder_spec. rewrite Hxs, Hadj. cbn [isArray].
  rewrite stay_items_singleton, (move_items_singleton _ _ _ Hitem).
  rewrite !fmap_app, fmap_take, fmap_drop, list_fmap_delete.
  unfold allItems. by rewrite Hxs, value_itemize_array.
Qed.

(** Dropping an element on itself, before or after it. *)
Lemma move_single_self xs i x (T : Z) :
  xs !! i = Some x →
  T = Z.of_nat i ∨ T = (Z.of_nat i + 1)%Z →
  let adj := Z.to_nat (clampZ 0 (Z.of_nat (length xs - 1))
               (T - (if (Z.of_nat i <? T)%Z then 1 else 0))) in
  adj = i ∧ take adj (delete i xs) ++ [x] ++ drop adj (delete i xs) = xs.
Proof.
  intros Hx HT adj. pose proof (lookup_lt_Some _ _ _ Hx) as Hlt.
  assert (adj = i) as ->.
  { unfold adj, clampZ. destruct HT as [->| ->].
    - rewrite Z.ltb_irrefl. lia.
    - rewrite (proj2 (Z.ltb_lt _ _)) by lia. lia. }
  split; [done|].
  rewrite delete_take_drop.
  rewrite take_app_length', drop_app_length' by (rewrite length_take; lia).
  by apply take_drop_middle.
Qed.
End single_move.



(** ** Moving with the keyboard *)

Section keyboard_move.
Context `{JsStrings}.
Implicit Types (s : State) (e : KeyboardEvent) (dom : DomEnv).

Ltac key_chain Hkey :=
  unfold handleKeyDown, handleMoveItems, key_is; rewrite Hkey;
  cbn [String.eqb Ascii.eqb Bool.eqb andb orb negb].

Lemma handleKeyDown_ctrl_backward e dom s i :
  ready_to_move i dom s → ctrlKey e = true →
  key e = "ArrowLeft" ∨ key e = "ArrowUp" →
  handleKeyDown e dom s
  = moveItemsDirect {[i]} (Z.max 0 (Z.of_nat i - 1)) s.
Proof.
  intros (Hmodal & Hinput & Hsearch & [f Hfocus] & Hsel & Hdata) Hctrl Hkey.
  assert ((length (currentData s) =? 0) = false) as Hlen.
  { apply Nat.eqb_neq. by destruct (currentData s). }
  destruct Hkey as [Hkey|Hkey]; key_chain Hkey;
    rewrite Hmodal, Hinput, Hctrl, Hsearch, Hfocus, Hsel, Hlen;
    rewrite ?andb_false_r, size_singleton, elements_singleton;
    by rewrite bool_decide_eq_false_2, bool_decide_eq_true_2
      by (by apply is_Some_None || by eexists).
Qed.

Lemma handleKeyDown_ctrl_forward e dom s i :
  ready_to_move i dom s → ctrlKey e = true →
  key e = "ArrowRight" ∨ key e = "ArrowDown" →
  handleKeyDown e dom s = moveItemsDirect {[i]} (Z.of_nat i + 2) s.
Proof.
  intros (Hmodal & Hinput & Hsearch & [f Hfocus] & Hsel & Hdata) Hctrl Hkey.
  assert ((length (currentData s) =? 0) = false) as Hlen.
  { apply Nat.eqb_neq. by destruct (currentData s). }
  destruct Hkey as [Hkey|Hkey]; key_chain Hkey;
    rewrite Hmodal, Hinput, Hctrl, Hsearch, Hfocus, Hsel, Hlen;
    rewrite ?andb_false_r, size_singleton, elements_singleton;
    by rewrite bool_decide_eq_false_2, bool_decide_eq_true_2
      by (by apply is_Some_None || by eexists).
Qed.
End keyboard_move.



(** X13.  At the ends the keyboard move keeps the order: Ctrl+ArrowLeft on the
    first card and Ctrl+ArrowRight on the last card hand the same array to
    the update. *)
Theorem keyboard_move_at_edges (B : JsStrings) (s : State)
    (e : KeyboardEvent) (dom : DomEnv) (xs : list JsonValue) :
  currentLevelData s = JArray xs →
  ctrlKey e = true →
  (ready_to_move 0 dom s →
   key e = "ArrowLeft" ∨ key e = "ArrowUp" →
   handleKeyDown e dom s = Returned (after_reorder (JArray xs) 0 1 s)) ∧
  (ready_to_move (length xs - 1) dom s →
   key e = "ArrowRight" ∨ key e = "ArrowDown" →
   handleKeyDown e dom s
   = Returned (after_reorder (JArray xs) (length xs - 1) 1 s)).
Proof.
  intros Hxs Hctrl.
  assert (∀ i, ready_to_move i dom s → xs ≠ []) as Hne.
  { intros i (_ & _ & Hsearch & _ & _ & Hdata) ->. apply Hdata.
    unfold currentData, filteredData, allItems. by rewrite Hxs, Hsearch. }
  split; intros Hready Hkey.
  - rewrite (handleKeyDown_ctrl_backward e dom s _ Hready Hctrl Hkey).
    pose proof (Hne _ Hready) as Hxne.
    destruct Hready as (_ & _ & Hsearch & _).
    destruct xs as [|x xs']; [done|].
    rewrite (move_single_array s _ 0 x _ Hsearch Hxs) by done.
    change (Z.max 0 (Z.of_nat 0 - 1)) with (Z.of_nat 0).
    destruct (move_single_self (x :: xs') 0 x (Z.of_nat 0)) as [Hadj Hsame];
      [done|by left|].
    cbv zeta in Hadj, Hsame |- *. by rewrite Hsame, Hadj.
  - rewrite (handleKeyDown_ctrl_forward e dom s _ Hready Hctrl Hkey).
    pose proof (Hne _ Hready) as Hxne.
    destruct Hready as (_ & _ & Hsearch & _).
    destruct (exists_last Hxne) as (front & x & ->).
    rewrite length_app. cbn [length]. rewrite Nat.add_sub.
    rewrite (move_single_array s _ (length front) x _ Hsearch Hxs)
      by (by rewrite list_lookup_middle).
    cbv zeta.
    replace (Z.to_nat _) with (length front).
    2:{ rewrite (proj2 (Z.ltb_lt _ _)) by lia. unfold clampZ.
        rewrite length_app. cbn. lia. }
    rewrite delete_middle, app_nil_r.
    by rewrite take_ge, drop_ge by lia.
Qed.

Lemma keyboard_move_at_edges_witness :
  handleKeyDown (H:=sample_strings) (ctrl_arrow "ArrowUp") wide_window
                (clicked_state 0)
  = Returned (after_reorder (file_data loaded_state) 0 1 (clicked_state 0)).
Proof.
  refine (proj1 (keyboard_move_at_edges sample_strings (clicked_state 0)
                   (ctrl_arrow "ArrowUp") wide_window _ _ _) _ _).
  - reflexivity.
  - reflexivity.
  - repeat split; try reflexivity; [by eexists|discriminate].
  - by right.
Defined.

(** ** The drag gesture *)

Section drag_gesture.
Implicit Types (s : State) (M : gset nat) (T : Z).

Lemma onDragEnd_as_move s dragData T :
  dragDataRef (grid s) = Some dragData →
  dropTargetRef (grid s) = Some T →
  itemsSnapshot dragData = allItems s →
  onDragEnd s =
    match moveItemsDirect (indicesToMove dragData) T s with
    | Returned s' => Returned (dragCleanup s')
    | Threw s' => Threw s'
    end.
Proof.
  intros Hd Ht Hsnap.
  unfold onDragEnd, moveItemsDirect. rewrite Hd, Ht, Hsnap.
  destruct (negb (String.eqb (searchTerm (grid s)) "")); [done|].
  destruct (length (sort_ascending (elements (indicesToMove dragData))))
    as [|n]; [done|].
  cbn [Nat.eqb Nat.ltb Nat.leb].
  match goal with |- context [match ?x with Some _ => _ | None => _ end] =>
    destruct x end; done.
Qed.

Lemma app_updateDataAtCurrentPath_ext newData s s' :
  app s = app s' → path (grid s) = path (grid s') →
  app (updateDataAtCurrentPath newData s) = app (updateDataAtCurrentPath newData s').
Proof.
  intros Ha Hp. unfold updateDataAtCurrentPath, file_data. rewrite Ha, Hp.
  destruct (_ && _); cbn; by rewrite ?Ha.
Qed.

(** The document a move produces depends on the document, the path and the
    filter only. *)
Lemma app_moveItemsDirect_ext M T s s' :
  app s = app s' → path (grid s) = path (grid s') →
  searchTerm (grid s) = searchTerm (grid s') →
  app (outcome_state (moveItemsDirect M T s))
  = app (outcome_state (moveItemsDirect M T s')).
Proof.
  intros Ha Hp Hs.
  assert (currentLevelData s = currentLevelData s') as Hcld.
  { unfold currentLevelData, file_data. by rewrite Ha, Hp. }
  assert (allItems s = allItems s') as Hitems.
  { unfold allItems. by rewrite Hcld. }
  unfold moveItemsDirect. rewrite Hs, Hitems, Hcld.
  destruct (negb _); [done|]. destruct (_ =? 0); [done|].
  match goal with |- context [match ?x with Some _ => _ | None => _ end] =>
    destruct x end; [|done].
  cbn. by apply app_updateDataAtCurrentPath_ext.
Qed.
End drag_gesture.

(** X14.  A whole drag gesture without a filter, started on card [i] and
    released over card [j], is the direct move of the dragged block (the
    selection when [i] is selected, else [i] alone) to [j], or to [j + 1]
    when released over the second half of the card; when it returns, the
    drag state is cleared. *)
Theorem drag_gesture_is_a_move (s : State) (i j : nat) (isAfter : bool) :
  searchTerm (grid s) = "" →
  let M := if decide (i ∈ selectedIndices (grid s))
           then selectedIndices (grid s) else {[ i ]} in
  let T := if isAfter then (Z.of_nat j + 1)%Z else Z.of_nat j in
  let s1 := onDragOver j isAfter (onDragStart i s) in
  onDragEnd s1 =
    match moveItemsDirect M T s1 with
    | Returned s' => Returned (dragCleanup s')
    | Threw s' => Threw s'
    end ∧
  app (outcome_state (onDragEnd s1)) = app (outcome_state (moveItemsDirect M T s)) ∧
  (∀ s', onDragEnd s1 = Returned s' →
         dragDataRef (grid s') = None ∧ dropTargetRef (grid s') = None ∧
         dropTargetIndex (grid s') = None ∧ draggedIndex (grid s') = None).
Proof.
  intros Hsearch M T s1.
  assert (onDragStart i s =
          setDraggedIndex (Some i)
            ((if negb (set_has (selectedIndices (grid s)) i)
              then λ s0, set_anchorIndexRef (Some i)
                           (setFocusedIndex (Some i)
                              (setSelectedIndices {[ i ]} s0))
              else id)
               (set_dropTargetRef None
                  (set_dragDataRef
                     (Some {| sourceIndex := i; indicesToMove := M;
                              itemsSnapshot := allItems s |}) s)))) as Hstart.
  { unfold onDragStart, M, set_has. rewrite Hsearch. cbn [String.eqb negb].
    destruct (decide (i ∈ selectedIndices (grid s))).
    - by rewrite bool_decide_eq_true_2.
    - by rewrite bool_decide_eq_false_2. }
  assert (app s1 = app s ∧ path (grid s1) = path (grid s) ∧
          searchTerm (grid s1) = searchTerm (grid s) ∧
          dragDataRef (grid s1)
            = Some {| sourceIndex := i; indicesToMove := M;
                      itemsSnapshot := allItems s |} ∧
          dropTargetRef (grid s1) = Some T) as (Ha & Hp & Hs & Hd & Ht).
  { unfold s1, onDragOver, T. rewrite Hstart.
    by destruct (negb (set_has _ _)). }
  assert (allItems s1 = allItems s) as Hitems.
  { unfold allItems, currentLevelData, file_data. by rewrite Ha, Hp. }
  assert (onDragEnd s1 =
          match moveItemsDirect M T s1 with
          | Returned s' => Returned (dragCleanup s')
          | Threw s' => Threw s'
          end) as Hend.
  { by rewrite (onDragEnd_as_move s1 _ T Hd Ht). }
  split; [done|]. split.
  - rewrite Hend, <-(app_moveItemsDirect_ext M T s1 s Ha Hp Hs).
    by destruct (moveItemsDirect M T s1).
  - intros s' Hret. rewrite Hend in Hret.
    destruct (moveItemsDirect M T s1); [|done]. by injection Hret as <-.
Qed.

Lemma drag_gesture_is_a_move_witness :
  app (outcome_state (onDragEnd (onDragOver 1 true (onDragStart 0 loaded_state))))
  = app (outcome_state (moveItemsDirect {[0]} 2 loaded_state)).
Proof.
  refine (proj1 (proj2 (drag_gesture_is_a_move loaded_state 0 1 true _))).
  reflexivity.
Defined.

(** ** Reordering the entries of an object *)

Section object_rebuild.
Implicit Types (kvs acc : list (string * JsonValue)) (result : list Item).

Lemma obj_lookup_None k kvs : k ∉ kvs.*1 → obj_lookup k kvs = None.
Proof.
  induction kvs as [|[k0 v0] kvs IH]; [done|]. cbn.
  intros Hnotin. apply not_elem_of_cons in Hnotin as [Hne Hnotin].
  rewrite (proj2 (String.eqb_neq k0 k)) by done. by apply IH.
Qed.



Lemma index_key_lt_irrefl kv1 kv2 :
  index_key_lt kv1 kv2 → index_key_lt kv2 kv1 → False.
Proof. intros (i & j & Hi & Hj & ?) (j' & i' & Hj' & Hi' & ?). simplify_eq. lia. Qed.

Lemma obj_insert_index_sorted i k v acc :
  array_index_of_key k = Some i →
  index_keyed_object acc →
  k ∉ acc.*1 →
  index_keyed_object (obj_insert_index i k v acc) ∧
  obj_insert_index i k v acc ≡ₚ (k, v) :: acc.
Proof.
  intros Hk [Hall Hsorted] Hfresh.
  induction Hsorted as [|[k' v'] acc Hacc IH Hhd].
  - cbn. split; [|done]. split; [by repeat constructor|repeat constructor].
  - apply Forall_cons in Hall as [[j Hj] Hall]. cbn in Hj.
    apply not_elem_of_cons in Hfresh as [Hne Hfresh]. cbn in Hne.
    cbn [obj_insert_index]. rewrite Hj.
    assert (i ≠ j) as Hij.
    { intros ->. apply Hne.
      by rewrite (array_index_of_key_pretty _ _ Hk),
                 (array_index_of_key_pretty _ _ Hj). }
    destruct (Nat.ltb_spec j i) as [Hlt|Hge].
    + destruct (IH Hall Hfresh) as [[Hall' Hsorted'] Hperm].
      split; [split|].
      * constructor; [by eexists|done].
      * constructor; [done|]. rewrite Hperm. constructor; [|done].
        exists j, i. by cbn.
      * rewrite Hperm. apply perm_swap.
    + split; [split|done].
      * constructor; [by eexists|]. constructor; [by eexists|done].
      * constructor; [by constructor|].
        assert (index_key_lt (k, v) (k', v')) as Hkk.
        { exists i, j. cbn. repeat split; [done..|lia]. }
        constructor; [done|].
        eapply Forall_impl; [exact Hhd|].
        intros kv (j1 & j2 & Hj1 & Hj2 & Hlt). cbn in Hj1. simplify_eq.
        exists i, j2. cbn. repeat split; [done..|lia].
Qed.

Lemma rebuild_index_keys acc result :
  index_keyed_object acc →
  NoDup (acc.*1 ++ (entry_of_item <$> result).*1) →
  Forall (λ item, is_Some (array_index_of_key (String_of_name (name item)))) result →
  let rebuilt := foldl (λ newObj item,
                          obj_set (String_of_name (name item)) (value item) newObj)
                       acc result in
  index_keyed_object rebuilt ∧ rebuilt ≡ₚ acc ++ (entry_of_item <$> result).
Proof.
  revert acc. induction result as [|item result IH]; intros acc Hacc Hnd Hidx.
  - cbn. by rewrite app_nil_r.
  - apply Forall_cons in Hidx as [[i Hi] Hidx]. cbn [foldl] in *.
    assert (String_of_name (name item) ∉ acc.*1) as Hfresh.
    { apply NoDup_app in Hnd as (_ & Hdis & _). intros Hin.
      apply (Hdis _ Hin). by left. }
    assert (obj_set (String_of_name (name item)) (value item) acc
            = obj_insert_index i (String_of_name (name item)) (value item) acc)
      as ->.
    { unfold obj_set, obj_has. by rewrite obj_lookup_None, Hi. }
    destruct (obj_insert_index_sorted i _ (value item) acc Hi Hacc Hfresh)
      as [Hacc' Hperm].
    destruct (IH _ Hacc') as [Hres Hperm']; [|done|].
    { rewrite Hperm. csimpl in Hnd. csimpl.
      by rewrite <-Permutation_middle in Hnd. }
    split; [done|]. rewrite Hperm', Hperm. cbn.
    by rewrite <-Permutation_middle.
Qed.

Lemma index_keyed_unique kvs1 kvs2 :
  index_keyed_object kvs1 → index_keyed_object kvs2 → kvs1 ≡ₚ kvs2 →
  kvs1 = kvs2.
Proof.
  intros [_ H1] [_ H2] Hperm.
  apply (StronglySorted_unique_strong index_key_lt); [|done..].
  intros x1 x2 _ _ Ha Hb. by destruct (index_key_lt_irrefl _ _ Ha Hb).
Qed.

Lemma index_keyed_NoDup kvs : index_keyed_object kvs → NoDup kvs.*1.
Proof.
  intros [_ Hsorted]. induction Hsorted as [|kv kvs _ IH Hhd]; [constructor|].
  cbn. constructor; [|done].
  intros (kv' & Heq & Hin)%list_elem_of_fmap.
  pose proof (proj1 (Forall_forall _ _) Hhd kv' Hin) as (i & j & Hi & Hj & Hlt).
  rewrite Heq in Hi. simplify_eq. lia.
Qed.

Lemma entry_of_itemize kvs : entry_of_item <$> itemize (JObject kvs) = kvs.
Proof.
  unfold itemize. cbn. rewrite <-list_fmap_compose.
  rewrite <-(list_fmap_id kvs) at 2. apply list_fmap_ext. by intros _ [k v] _.
Qed.

(** Rebuilding an integer-keyed object from its items in any order gives
    the object back. *)
Lemma reserialize_index_keyed kvs result :
  index_keyed_object kvs →
  result ≡ₚ itemize (JObject kvs) →
  reserialize (JObject kvs) result = JObject kvs.
Proof.
  intros Hkvs Hperm. unfold reserialize. cbn [isArray]. f_equal.
  assert (entry_of_item <$> result ≡ₚ kvs) as Hentries.
  { by rewrite Hperm, entry_of_itemize. }
  destruct (rebuild_index_keys [] result) as [Hres Hperm'].
  - split; constructor.
  - cbn. rewrite Hentries. by apply index_keyed_NoDup.
  - apply Forall_forall. intros item Hin.
    assert (entry_of_item item ∈ kvs) as Hin'.
    { rewrite <-Hentries. by apply list_elem_of_fmap_2. }
    destruct Hkvs as [Hall _].
    exact (proj1 (Forall_forall _ _) Hall _ Hin').
  - apply index_keyed_unique; [done..|]. by rewrite Hperm'.
Qed.
End object_rebuild.

Section plain_keys.
Implicit Types (kvs : list (string * JsonValue)) (result : list Item).

End plain_keys.



(** X16.  Reordering the entries of an object whose keys are all integer keys
    changes nothing in the object: JavaScript enumerates integer keys in
    ascending order whatever the order of insertion, so the same object is
    handed to the update, while selection and focus move as if the reorder
    had taken place. *)
Theorem integer_keyed_object_keeps_its_order (s : State) (M : gset nat) (T : Z)
    (kvs : list (string * JsonValue)) :
  searchTerm (grid s) = "" →
  M ≠ ∅ →
  (∀ m, m ∈ M → m < length (allItems s)) →
  currentLevelData s = JObject kvs →
  index_keyed_object kvs →
  moveItemsDirect M T s
  = Returned (after_reorder (JObject kvs) (adjustedT (allItems s) M T)
                            (size M) s).
Proof.
  intros Hsearch Hne Hb Hkvs Hidx.
  rewrite moveItemsDirect_spec by done. rewrite Hkvs.
  rewrite reserialize_index_keyed; [done..|].
  rewrite reorder_spec_Permutation. unfold allItems. by rewrite Hkvs.
Qed.

Lemma integer_keyed_object_keeps_its_order_witness :
  moveItemsDirect {[0]} 2 numbered_state
  = Returned (after_reorder (JObject [("1", JString "a"); ("2", JString "b")])
                (adjustedT (allItems numbered_state) {[0]} 2)
                (size ({[0]} : gset nat)) numbered_state).
Proof.
  refine (integer_keyed_object_keeps_its_order numbered_state {[0]} 2%Z _ _ _ _ _ _).
  - reflexivity.
  - exact (bool_decide_unpack ({[0]} ≠ (∅ : gset nat)) I).
  - intros m Hm. apply elem_of_singleton in Hm. subst m. vm_compute. lia.
  - reflexivity.
  - split.
    + repeat constructor; by eexists.
    + repeat constructor. exists 1, 2. repeat split. lia.
Defined.

(** ** Selection by click and by arrow keys *)

Section selection.
Context `{JsStrings}.
Implicit Types (s : State) (e : KeyboardEvent) (dom : DomEnv).

Lemma elem_of_range_set start end_ i :
  i ∈ range_set start end_ ↔ start ≤ i ≤ end_.
Proof.
  unfold range_set.
  assert (∀ (l : list nat) (X : gset nat),
            i ∈ foldl (λ newSet j, newSet ∪ {[ j ]}) X l ↔ i ∈ X ∨ i ∈ l) as Hfold.
  { induction l as [|x l IH]; intros X; cbn [foldl].
    - set_solver.
    - rewrite IH. set_solver. }
  rewrite Hfold, elem_of_seq. set_solver by lia.
Qed.

Lemma arrowNavigation_focus e cols itemCount s :
  0 < itemCount →
  match focusedIndex (grid s) with Some f => f < itemCount | None => True end →
  ∃ next,
    focusedIndex (grid (arrowNavigation e cols itemCount s)) = Some next ∧
    next < itemCount ∧
    (shiftKey e = false →
       selectedIndices (grid (arrowNavigation e cols itemCount s)) = {[ next ]} ∧
       anchorIndexRef (grid (arrowNavigation e cols itemCount s)) = Some next) ∧
    (shiftKey e = true →
       ∃ anchor,
         anchorIndexRef (grid (arrowNavigation e cols itemCount s)) = Some anchor ∧
         (∀ a, anchorIndexRef (grid s) = Some a → anchor = a) ∧
         ∀ i, i ∈ selectedIndices (grid (arrowNavigation e cols itemCount s))
              ↔ Nat.min anchor next ≤ i ≤ Nat.max anchor next).
Proof.
  intros Hpos Hprev. unfold arrowNavigation.
  set (next := match focusedIndex (grid s) with
               | Some prev => _
               | None => _
               end).
  exists next.
  assert (next < itemCount) as Hnext.
  { unfold next. destruct (focusedIndex (grid s)) as [prev|].
    - repeat match goal with |- context [if ?c then _ else _] => destruct c end; lia.
    - repeat match goal with |- context [if ?c then _ else _] => destruct c end; lia. }
  destruct (shiftKey e); cbn.
  - split; [done|]. split; [done|]. split; [done|]. intros _.
    eexists. split; [done|]. split.
    + intros a Ha. by rewrite Ha.
    + intros i. apply elem_of_range_set.
  - split; [done|]. split; [done|]. by split.
Qed.
End selection.

(** X17.  A plain click selects the card alone and makes it focus and anchor.
    A click with Ctrl or Meta toggles the card in the selection, so that two
    of them restore the selection.  A click with Shift selects exactly the
    cards between the anchor and the card, keeps the anchor, and is a plain
    click when there is no anchor.  No click changes the document or the
    path. *)
Theorem click_selects (s : State) (index : nat) :
  (let s' := handleCardClick false false index s in
   selectedIndices (grid s') = {[ index ]} ∧
   focusedIndex (grid s') = Some index ∧ anchorIndexRef (grid s') = Some index) ∧
  (∀ shift,
     let s' := handleCardClick true shift index s in
     (∀ i, i ∈ selectedIndices (grid s') ↔
           if decide (i = index) then index ∉ selectedIndices (grid s)
           else i ∈ selectedIndices (grid s)) ∧
     focusedIndex (grid s') = Some index ∧ anchorIndexRef (grid s') = Some index ∧
     selectedIndices (grid (handleCardClick true shift index s'))
       = selectedIndices (grid s)) ∧
  (∀ anchor,
     anchorIndexRef (grid s) = Some anchor →
     let s' := handleCardClick false true index s in
     (∀ i, i ∈ selectedIndices (grid s') ↔
           Nat.min anchor index ≤ i ≤ Nat.max anchor index) ∧
     focusedIndex (grid s') = Some index ∧
     anchorIndexRef (grid s') = Some anchor) ∧
  (anchorIndexRef (grid s) = None →
   handleCardClick false true index s = handleCardClick false false index s) ∧
  (∀ ctrl shift, app (handleCardClick ctrl shift index s) = app s ∧
                 path (grid (handleCardClick ctrl shift index s)) = path (grid s)).
Proof.
  split; [done|]. split; [|split; [|split]].
  - intros shift. unfold handleCardClick, set_has. cbn.
    destruct (decide (index ∈ selectedIndices (grid s))) as [Hin|Hout].
    + rewrite (bool_decide_eq_true_2 _ Hin). cbn.
      rewrite bool_decide_eq_false_2 by set_solver.
      split; [|split; [done|split; [done|]]].
      * intros i. destruct (decide (i = index)); set_solver.
      * apply set_eq. intros i. destruct (decide (i = index)); set_solver.
    + rewrite (bool_decide_eq_false_2 _ Hout). cbn.
      rewrite bool_decide_eq_true_2 by set_solver.
      split; [|split; [done|split; [done|]]].
      * intros i. destruct (decide (i = index)); set_solver.
      * apply set_eq. intros i. destruct (decide (i = index)); set_solver.
  - intros anchor Ha. unfold handleCardClick. rewrite Ha. cbn.
    split; [|by rewrite Ha]. intros i. apply elem_of_range_set.
  - intros Ha. unfold handleCardClick. by rewrite Ha.
  - intros ctrl shift. unfold handleCardClick.
    destruct ctrl; [done|]. destruct shift; [|done].
    by destruct (anchorIndexRef (grid s)).
Qed.

Section arrows.
Context `{JsStrings}.
Implicit Types (s : State) (e : KeyboardEvent) (dom : DomEnv).

Lemma handleKeyDown_arrow e dom s :
  selectedItem (grid s) = None → isInputActive dom = false →
  ctrlKey e = false → is_arrow_key e = true → currentData s ≠ [] →
  handleKeyDown e dom s
  = Returned (arrowNavigation e (columns (innerWidth dom)) (length (currentData s)) s).
Proof.
  intros Hmodal Hinput Hctrl Harrow Hdata.
  assert ((length (currentData s) =? 0) = false) as Hlen.
  { apply Nat.eqb_neq. by destruct (currentData s). }
  unfold handleKeyDown. rewrite Harrow.
  unfold is_arrow_key, key_is in *. rewrite Hmodal, Hinput, Hctrl, Hlen.
  rewrite bool_decide_eq_false_2 by apply is_Some_None.
  destruct (arrow_key_cases e Harrow) as [Hk|[Hk|[Hk|Hk]]]; rewrite Hk; cbn;
    by rewrite ?andb_false_r.
Qed.
End arrows.

(** X18.  An arrow key without Ctrl, with no modal open and the search field
    not focused, moves the focus to a card of the displayed list.  Without
    Shift that card becomes the selection and the anchor; with Shift the
    anchor stays and the selection is the range between anchor and focus.
    Document and path are left alone. *)
Theorem arrow_keys_keep_focus_in_list (B : JsStrings) (s : State)
    (e : KeyboardEvent) (dom : DomEnv) :
  selectedItem (grid s) = None → isInputActive dom = false →
  ctrlKey e = false → is_arrow_key e = true →
  currentData s ≠ [] → focus_in_range s →
  ∃ s' next,
    handleKeyDown e dom s = Returned s' ∧
    focusedIndex (grid s') = Some next ∧ next < length (currentData s') ∧
    app s' = app s ∧ path (grid s') = path (grid s) ∧
    (shiftKey e = false →
       selectedIndices (grid s') = {[ next ]} ∧ anchorIndexRef (grid s') = Some next) ∧
    (shiftKey e = true →
       ∃ anchor,
         anchorIndexRef (grid s') = Some anchor ∧
         (∀ a, anchorIndexRef (grid s) = Some a → anchor = a) ∧
         ∀ i, i ∈ selectedIndices (grid s')
              ↔ Nat.min anchor next ≤ i ≤ Nat.max anchor next).
Proof.
  intros Hmodal Hinput Hctrl Harrow Hdata Hfocus.
  rewrite (handleKeyDown_arrow e dom s Hmodal Hinput Hctrl Harrow Hdata).
  destruct (arrowNavigation_focus e (columns (innerWidth dom))
              (length (currentData s)) s) as (next & Hnext & Hlt & Hplain & Hshift).
  { destruct (currentData s); [done|cbn; lia]. }
  { unfold focus_in_range in Hfocus. by destruct (focusedIndex (grid s)). }
  eexists _, next. split; [done|]. split; [done|].
  assert (app (arrowNavigation e (columns (innerWidth dom))
                 (length (currentData s)) s) = app s) as Happ.
  { unfold arrowNavigation. by destruct (shiftKey e). }
  assert (path (grid (arrowNavigation e (columns (innerWidth dom))
                 (length (currentData s)) s)) = path (grid s)) as Hpath.
  { unfold arrowNavigation. by destruct (shiftKey e). }
  assert (searchTerm (grid (arrowNavigation e (columns (innerWidth dom))
                 (length (currentData s)) s)) = searchTerm (grid s)) as Hsearch.
  { unfold arrowNavigation. by destruct (shiftKey e). }
  split; [|done].
  by rewrite (currentData_ext _ s).
Qed.

Lemma arrow_keys_keep_focus_in_list_witness :
  ∃ s' next,
    handleKeyDown (H:=sample_strings) (plain_key "ArrowRight") wide_window
                  (clicked_state 0) = Returned s' ∧
    focusedIndex (grid s') = Some next ∧
    next < length (currentData (H:=sample_strings) s').
Proof.
  destruct (arrow_keys_keep_focus_in_list sample_strings (clicked_state 0)
              (plain_key "ArrowRight") wide_window)
    as (s' & next & Hret & Hfocus & Hlt & _).
  - reflexivity.
  - reflexivity.
  - reflexivity.
  - reflexivity.
  - discriminate.
  - vm_compute. lia.
  - by exists s', next.
Defined.

(** ** Navigation *)

Section navigation.
Context `{JsStrings}.
Implicit Types (s : State) (d : JsonValue) (p : list Name).

Lemma resolvePath_snoc d p key :
  resolvePath d (p ++ [key])
  = if truthy (resolvePath d p) && String.eqb (typeof (resolvePath d p)) "object"
    then get_prop (resolvePath d p) key else JNull.
Proof.
  revert d. induction p as [|a p IH]; intros d; [done|].
  rewrite <-app_comm_cons. cbn [resolvePath].
  destruct (truthy d && _); [apply IH|done].
Qed.

Lemma obj_lookup_elem_of k v (kvs : list (string * JsonValue)) :
  NoDup kvs.*1 → (k, v) ∈ kvs → obj_lookup k kvs = Some v.
Proof.
  induction kvs as [|[k' v'] kvs IH]; intros Hnd Hin; [by apply elem_of_nil in Hin|].
  apply NoDup_cons in Hnd as [Hfresh Hnd]. cbn [obj_lookup].
  apply elem_of_cons in Hin as [[= -> ->]|Hin].
  - by rewrite String.eqb_refl.
  - destruct (String.eqb_spec k' k) as [->|_]; [|by apply IH].
    destruct Hfresh. apply list_elem_of_fmap. by exists (k, v).
Qed.

Lemma obj_lookup_is_Some k v (kvs : list (string * JsonValue)) :
  (k, v) ∈ kvs → is_Some (obj_lookup k kvs).
Proof.
  induction kvs as [|[k' v'] kvs IH]; intros Hin; [by apply elem_of_nil in Hin|].
  cbn [obj_lookup]. destruct (String.eqb_spec k' k) as [->|Hne]; [by eexists|].
  apply elem_of_cons in Hin as [[= <- <-]|Hin]; [done|by apply IH].
Qed.

(** Reading a container at the name of one of its cards gives the value the
    card shows. *)
Lemma get_prop_item d item :
  item ∈ itemize d → NoDup (name <$> itemize d) →
  get_prop d (name item) = value item.
Proof.
  unfold itemize. destruct d as [| |b|n|str|xs|kvs]; cbn;
    try (by intros ?%elem_of_nil);
    try (by destruct (negb _); intros ?%elem_of_nil).
  - intros (i & Hitem)%elem_of_lookup_imap _.
    destruct Hitem as (v & -> & Hv). cbn. by rewrite Hv.
  - intros (kv & -> & Hin)%list_elem_of_fmap Hnd. cbn.
    rewrite (obj_lookup_elem_of kv.1 kv.2 kvs); [done| |by destruct kv].
    rewrite <-list_fmap_compose in Hnd.
    apply (NoDup_fmap_1 NKey). by rewrite <-list_fmap_compose.
Qed.

Lemma itemize_nonnull d item : item ∈ itemize d → nonnull_object d.
Proof.
  unfold itemize. destruct d; cbn; try done;
    try (by intros ?%elem_of_nil); by destruct (negb _); intros ?%elem_of_nil.
Qed.

Lemma legal_path_snoc d p item :
  legal_path d p → item ∈ itemize (resolvePath d p) →
  legal_path d (p ++ [name item]).
Proof.
  revert d. induction p as [|a p IH]; intros d Hlegal Hin.
  - rewrite app_nil_l. cbn [resolvePath] in *. unfold itemize in Hin.
    destruct d as [| |b|n|str|xs|kvs]; cbn in Hin;
      try (by apply elem_of_nil in Hin);
      try (by destruct (negb _); apply elem_of_nil in Hin).
    + apply elem_of_lookup_imap in Hin as (i & v & -> & Hv). cbn. by exists v.
    + apply list_elem_of_fmap in Hin as ([k v] & -> & Hin). cbn.
      destruct (obj_lookup_is_Some k v kvs Hin) as [v' Hv']. by exists v'.
  - destruct d as [| |b|n|str|xs|kvs], a as [k|i]; cbn in Hlegal; try done.
    + destruct Hlegal as (v & Hv & Hlegal). cbn. exists v. split; [done|].
      apply IH; [done|]. cbn in Hin. by rewrite Hv in Hin.
    + destruct Hlegal as (v & Hv & Hlegal). cbn. exists v. split; [done|].
      apply IH; [done|]. cbn in Hin. by rewrite Hv in Hin.
Qed.

Lemma legal_path_take d p n : legal_path d p → legal_path d (take n p).
Proof.
  revert d n. induction p as [|a p IH]; intros d [|n]; try done.
  cbn [take]. destruct d as [| |b|m|str|xs|kvs], a as [k|i]; cbn; try done.
  - intros (v & Hv & Hlegal). exists v. split; [done|]. by apply IH.
  - intros (v & Hv & Hlegal). exists v. split; [done|]. by apply IH.
Qed.

Lemma elem_of_filterItems item items term :
  item ∈ filterItems items term → item ∈ items.
Proof.
  unfold filterItems. destruct (negb _); [|done].
  rewrite array_filter_stdpp. by intros [_ ?]%list_elem_of_filter.
Qed.

(** What the effects leave after a commit that replaced the path. *)
Lemma settle_new_path prev cur :
  focus_in_range prev → pathIdentity (grid prev) ≠ pathIdentity (grid cur) →
  app (settle prev cur) = app cur ∧
  path (grid (settle prev cur)) = path (grid cur) ∧
  selectedItem (grid (settle prev cur)) = selectedItem (grid cur) ∧
  selectedIndices (grid (settle prev cur)) = ∅ ∧
  anchorIndexRef (grid (settle prev cur)) = None ∧
  searchTerm (grid (settle prev cur)) = "" ∧
  (focusedIndex (grid (settle prev cur)) = None ∨
   ∃ f, focusedIndex (grid cur) = Some f ∧ length (currentData cur) ≤ f ∧
        focusedIndex (grid (settle prev cur)) = Some (length (currentData cur) - 1)).
Proof.
  intros Hprev Hid. rewrite settle_eq_pass by done.
  unfold effects_pass. apply Nat.eqb_neq in Hid. rewrite Hid.
  destruct (_ && _).
  - split_and!; try done. by left.
  - unfold clampEffect. destruct (focusedIndex (grid cur)) as [f|] eqn:Hf.
    + destruct (_ =? 0); [split_and!; try done; by left|].
      destruct (Nat.leb_spec (length (currentData cur)) f).
      * split_and!; try done. right. by exists f.
      * split_and!; try done. by left.
    + split_and!; try done. by left.
Qed.

Lemma unmount_if_closed_open s : is_Some (parsedFile s) → unmount_if_closed s = s.
Proof. intros [mf Hmf]. unfold unmount_if_closed. by rewrite Hmf. Qed.

Lemma parsedFile_ext s s' : app s = app s' → parsedFile s = parsedFile s'.
Proof. intros Ha. unfold parsedFile, file_data. by rewrite Ha. Qed.
End navigation.

(** X19.  A double click on a card holding an array or an object drills into
    it: its name is appended to the path, selection, anchor and search term
    are reset, a legal path stays legal and the new level is the value of the
    card.  On a card holding anything else it opens the modal on that value,
    with the path to it, and changes nothing else. *)
Theorem double_click_drills_or_opens (B : JsStrings) (s : State) (index : nat)
    (item : Item) :
  is_Some (parsedFile s) → focus_in_range s →
  currentData s !! index = Some item →
  let s' := step (CardDoubleClick index) s in
  app s' = app s ∧
  (nonnull_object (value item) →
     path (grid s') = path (grid s) ++ [name item] ∧
     selectedIndices (grid s') = ∅ ∧ anchorIndexRef (grid s') = None ∧
     searchTerm (grid s') = "" ∧ selectedItem (grid s') = selectedItem (grid s) ∧
     (legal_path (file_data s) (path (grid s)) →
      legal_path (file_data s') (path (grid s'))) ∧
     (NoDup (name <$> allItems s) → currentLevelData s' = value item)) ∧
  (¬ nonnull_object (value item) →
     s' = setSelectedItem
            (Some {| sel_data := value item; sel_name := name item;
                     fullPath := path (grid s) ++ [name item] |}) s).
Proof.
  intros Hopen Hfocus Hitem s'.
  assert (item ∈ allItems s) as Hin.
  { eapply elem_of_filterItems, list_elem_of_lookup_2, Hitem. }
  assert (s' = settle s (unmount_if_closed
                           (handleDrillDown (name item) (value item) s))) as Hs'.
  { subst s'. unfold step, handle. by rewrite Hitem. }
  clearbody s'. subst s'.
  destruct (decide (nonnull_object (value item))) as [Hobj|Hprim].
  - assert (handleDrillDown (name item) (value item) s
            = setPath (path (grid s) ++ [name item]) s) as Hdrill.
    { unfold handleDrillDown. by destruct (value item). }
    rewrite Hdrill.
    rewrite unmount_if_closed_open by done.
    destruct (settle_new_path s (setPath (path (grid s) ++ [name item]) s))
      as (Ha & Hp & Hmodal & Hsel & Hanchor & Hsearch & _); [done|cbn; lia|].
    split; [done|]. split; [|done]. intros _.
    split_and!; try done.
    + intros Hlegal. rewrite Hp. unfold file_data. rewrite Ha. cbn.
      by apply legal_path_snoc.
    + intros Hnd. unfold currentLevelData, file_data. rewrite Hp, Ha. cbn.
      rewrite resolvePath_snoc.
      pose proof (itemize_nonnull _ _ Hin) as Hcur.
      fold (file_data s). fold (currentLevelData s).
      rewrite <-(get_prop_item (currentLevelData s) item Hin Hnd).
      by destruct (currentLevelData s).
  - assert (handleDrillDown (name item) (value item) s
            = setSelectedItem
                (Some {| sel_data := value item; sel_name := name item;
                         fullPath := path (grid s) ++ [name item] |}) s) as Hopen'.
    { unfold handleDrillDown. by destruct (value item). }
    rewrite Hopen'. rewrite unmount_if_closed_open by done.
    split; [|split; [done|]].
    + unfold settle.
      by rewrite !(proj1 (effects_pass_rest _ _)).
    + intros _. unfold settle.
      assert (∀ cur, effects_pass cur cur = cur) as Hsame.
      { intros cur. unfold effects_pass.
        rewrite !Nat.eqb_refl. cbn.
        by rewrite (proj2 (focus_eqb_eq _ _) eq_refl). }
      assert (effects_pass s
                (setSelectedItem
                   (Some {| sel_data := value item; sel_name := name item;
                            fullPath := path (grid s) ++ [name item] |}) s)
              = setSelectedItem
                   (Some {| sel_data := value item; sel_name := name item;
                            fullPath := path (grid s) ++ [name item] |}) s) as ->.
      { unfold effects_pass.
        rewrite <-(currentData_ext s (setSelectedItem _ s)) by done.
        cbn [setSelectedItem with_grid grid pathIdentity focusedIndex].
        rewrite !Nat.eqb_refl. cbn.
        by rewrite (proj2 (focus_eqb_eq _ _) eq_refl). }
      apply Hsame.
Qed.

Lemma double_click_drills_or_opens_witness :
  app (step (H:=sample_strings) (CardDoubleClick 0) loaded_state) = app loaded_state.
Proof.
  refine (proj1 (double_click_drills_or_opens sample_strings loaded_state 0 _ _ _ _)).
  - by eexists.
  - exact I.
  - reflexivity.
Defined.

Section going_up.
Context `{JsStrings}.
Implicit Types (s : State) (p : list Name).

Lemma settle_rest prev cur :
  app (settle prev cur) = app cur ∧ path (grid (settle prev cur)) = path (grid cur).
Proof.
  unfold settle.
  destruct (effects_pass_rest cur (effects_pass prev cur)) as (-> & -> & _).
  by destruct (effects_pass_rest prev cur) as (-> & -> & _).
Qed.

(** A click on a navigation button: the handler sets the path, the click
    then reaches the container, and the effects run. *)
Lemma settle_navigation s cur :
  focus_in_range s → focusedIndex (grid cur) = None →
  selectedIndices (grid cur) = ∅ →
  focusedIndex (grid (settle s cur)) = None ∧
  selectedIndices (grid (settle s cur)) = ∅.
Proof.
  intros Hfocus Hnone Hsel. rewrite settle_eq_pass by done.
  unfold effects_pass.
  destruct (pathIdentity (grid s) =? pathIdentity (grid cur));
    (destruct (_ && _); [done|]); unfold clampEffect; by rewrite Hnone.
Qed.

Lemma unmount_same_app s cur :
  is_Some (parsedFile s) → app cur = app s → unmount_if_closed cur = cur.
Proof.
  intros Hopen Ha. apply unmount_if_closed_open. by rewrite (parsedFile_ext cur s).
Qed.
End going_up.

(** X20.  The back button, the home breadcrumb and the breadcrumb of a segment
    cut the path to a prefix of itself (all but the last segment, nothing,
    the segments up to the one clicked); the shortened path is legal when the
    path was, the document is not touched, and focus and selection are
    cleared. *)
Theorem going_up_keeps_path_legal (B : JsStrings) (s : State) :
  is_Some (parsedFile s) → focus_in_range s →
  legal_path (file_data s) (path (grid s)) →
  ∀ ev p,
    (ev = NavigateUp ∧ p = take (length (path (grid s)) - 1) (path (grid s))) ∨
    (ev = BreadcrumbHome ∧ p = []) ∨
    (∃ i, ev = Breadcrumb i ∧ p = take (S i) (path (grid s))) →
    let s' := step ev s in
    path (grid s') = p ∧ app s' = app s ∧
    legal_path (file_data s') (path (grid s')) ∧
    focusedIndex (grid s') = None ∧ selectedIndices (grid s') = ∅.
Proof.
  intros Hopen Hfocus Hlegal ev p Hev s'.
  assert (∃ cur, s' = settle s cur ∧ path (grid cur) = p ∧ app cur = app s ∧
                 focusedIndex (grid cur) = None ∧ selectedIndices (grid cur) = ∅)
    as (cur & -> & Hp & Ha & Hnone & Hsel).
  { subst s'. unfold step.
    destruct Hev as [[-> ->]|[[-> ->]|(i & -> & ->)]]; cbn [handle outcome_state].
    - rewrite (unmount_same_app s)
        by (done || (unfold handleNavigateUp; by destruct (0 <? _))).
      eexists. split; [done|].
      unfold handleNavigateUp.
      destruct (path (grid s)) as [|a p] eqn:Hpath; [done|].
      by change (0 <? S (length p)) with true.
    - rewrite (unmount_same_app s) by done. by eexists.
    - rewrite (unmount_same_app s) by done.
      eexists. split; [done|].
      unfold breadcrumbJump. by rewrite Nat.add_1_r. }
  destruct (settle_rest s cur) as [Ha' Hp'].
  destruct (settle_navigation s cur Hfocus Hnone Hsel) as [Hf' Hs'].
  split_and!; try congruence.
  unfold file_data. rewrite Ha', Ha, Hp', Hp. fold (file_data s).
  destruct Hev as [[_ ->]|[[_ ->]|(i & _ & ->)]];
    [by apply legal_path_take|done|by apply legal_path_take].
Qed.

Lemma going_up_keeps_path_legal_witness :
  path (grid (step (H:=sample_strings) NavigateUp nested_state)) = [].
Proof.
  refine (proj1 (going_up_keeps_path_legal sample_strings nested_state _ _ _
                   NavigateUp [] _)).
  - by eexists.
  - exact I.
  - solve_legal.
  - left. by split.
Defined.

(** X21.  Drilling into a card and going back up returns to the same path and
    document, with every item of the level displayed and nothing focused or
    selected. *)
Theorem navigate_up_after_drill_down (B : JsStrings) (s : State) (index : nat)
    (item : Item) :
  is_Some (parsedFile s) → focus_in_range s →
  currentData s !! index = Some item → nonnull_object (value item) →
  let s2 := step NavigateUp (step (CardDoubleClick index) s) in
  app s2 = app s ∧ path (grid s2) = path (grid s) ∧
  currentData s2 = allItems s ∧
  focusedIndex (grid s2) = None ∧ selectedIndices (grid s2) = ∅ ∧
  anchorIndexRef (grid s2) = None.
Proof.
  intros Hopen Hfocus Hitem Hobj.
  set (s1 := step (CardDoubleClick index) s).
  assert (s1 = settle s (setPath (path (grid s) ++ [name item]) s)) as Hs1.
  { subst s1. unfold step, handle. rewrite Hitem. cbn [outcome_state].
    rewrite (unmount_same_app s);
      [|done|unfold handleDrillDown; by destruct (value item)].
    unfold handleDrillDown. by destruct (value item). }
  destruct (settle_new_path s (setPath (path (grid s) ++ [name item]) s))
    as (Ha & Hp & _ & _ & _ & _ & _); [done|cbn; lia|].
  rewrite <-Hs1 in Ha, Hp. cbn in Ha, Hp.
  assert (focus_in_range s1) as Hfocus1.
  { subst s1. unfold step. by apply settle_focus_in_range. }
  assert (is_Some (parsedFile s1)) as Hopen1.
  { by rewrite (parsedFile_ext s1 s). }
  intros s2.
  assert (s2 = settle s1 (containerClick (setPath (path (grid s)) s1))) as Hs2.
  { subst s2. unfold step. cbn [handle outcome_state].
    rewrite (unmount_same_app s1);
      [|done|unfold handleNavigateUp; by destruct (0 <? _)].
    unfold handleNavigateUp. rewrite Hp, length_app. cbn [length].
    replace (0 <? length (path (grid s)) + 1) with true
      by (symmetry; apply Nat.ltb_lt; lia).
    by rewrite Nat.add_sub, take_app_length. }
  clearbody s2. subst s2.
  destruct (settle_new_path s1 (containerClick (setPath (path (grid s)) s1)))
    as (Ha2 & Hp2 & _ & Hsel2 & Hanchor2 & Hsearch2 & Hf2); [done|cbn; lia|].
  cbn in Ha2, Hp2.
  split_and!; try congruence.
  - unfold currentData, filteredData. rewrite Hsearch2.
    unfold allItems, currentLevelData, file_data. by rewrite Ha2, Hp2, Ha.
  - destruct Hf2 as [Hf2|(f & Hf & _)]; [done|by cbn in Hf].
Qed.

Lemma navigate_up_after_drill_down_witness :
  path (grid (step (H:=sample_strings) NavigateUp
                (step (H:=sample_strings) (CardDoubleClick 0) loaded_state)))
  = path (grid loaded_state).
Proof.
  refine (proj1 (proj2 (navigate_up_after_drill_down sample_strings loaded_state 0
                          _ _ _ _ _))).
  - by eexists.
  - exact I.
  - reflexivity.
  - exact I.
Defined.

(** ** What the grid does to the history *)

Section edits.
Context `{JsStrings}.
Implicit Types (s : State) (h : History).

Lemma edit_updateDataAtCurrentPath newData s :
  edit_moves (app s) (app (updateDataAtCurrentPath newData s)).
Proof.
  unfold updateDataAtCurrentPath.
  destruct (_ && _); [by left|]. right. by eexists.
Qed.

Lemma edit_moveItemsDirect M T s :
  edit_moves (app s) (app (outcome_state (moveItemsDirect M T s))).
Proof.
  unfold moveItemsDirect.
  destruct (negb _); [by left|].
  destruct (_ =? 0); [by left|].
  match goal with |- context [match ?x with Some _ => _ | None => _ end] =>
    destruct x end; [|by left].
  cbn. apply edit_updateDataAtCurrentPath.
Qed.

Lemma edit_onDragEnd s :
  edit_moves (app s) (app (outcome_state (onDragEnd s))).
Proof.
  unfold onDragEnd.
  destruct (dragDataRef _); [|by left].
  destruct (dropTargetRef _); [|by left].
  destruct (negb _); [by left|].
  destruct (0 <? _); [|by left].
  match goal with |- context [match ?x with Some _ => _ | None => _ end] =>
    destruct x end; [|by left].
  cbn. apply edit_updateDataAtCurrentPath.
Qed.

Lemma edit_handleDelete t s :
  edit_moves (app s) (app (handleDelete t s)).
Proof.
  unfold handleDelete.
  destruct (_ =? 0); [by left|].
  destruct (_ =? 0); [by left|].
  cbn. apply edit_updateDataAtCurrentPath.
Qed.

Lemma edit_handleKeyDown e dom s :
  edit_moves (app s) (app (outcome_state (handleKeyDown e dom s))).
Proof.
  unfold handleKeyDown, handleMoveItems.
  repeat match goal with
  | |- edit_moves _ (app (outcome_state (if ?c then _ else _))) => destruct c
  | |- edit_moves _ (app (outcome_state (match ?x with Some _ => _ | None => _ end))) =>
      destruct x
  | |- edit_moves _ (app (outcome_state (let _ := _ in _))) => cbv zeta
  end;
  try (left; cbn [outcome_state];
       first [ done | apply app_handleNavigateUp | apply app_handleDrillDown
             | apply app_arrowNavigation ]);
  first [ apply edit_handleDelete | apply edit_moveItemsDirect ].
Qed.

Lemma edit_handle ev s :
  is_grid_event ev = true →
  edit_moves (app s) (app (outcome_state (handle ev s))).
Proof.
  destruct ev; intros Hev; try done; cbn [handle outcome_state];
  try (by left).
  - left. apply app_handleCardClick.
  - left. destruct (_ !! _); [apply app_handleDrillDown|done].
  - apply edit_handleDelete.
  - left. by destruct (_ !! _).
  - left. apply app_onDragStart.
  - apply edit_onDragEnd.
  - left. cbn. apply app_handleNavigateUp.
  - destruct (selectedItem (grid s)) eqn:Hsel; unfold handleModalSave;
      rewrite Hsel; [|by left].
    right. by eexists.
  - apply edit_handleKeyDown.
Qed.

Lemma edit_step ev s :
  is_grid_event ev = true → edit_moves (app s) (app (step ev s)).
Proof.
  intros Hev. unfold step, settle.
  rewrite !app_effects_pass, app_unmount_if_closed. by apply edit_handle.
Qed.

(** One undo takes back one push. *)
Lemma undo_push h d :
  truthy (present h) = true →
  present (undo (handleDataUpdate d h)) = present h ∧
  future (undo (handleDataUpdate d h)) = [d] ∧
  past (undo (handleDataUpdate d h)) `suffix_of` past h ∧
  (length (past h) < MAX_HISTORY → undo (handleDataUpdate d h)
     = {| past := past h; present := present h; future := [d] |}) ∧
  canUndo (handleDataUpdate d h) = true.
Proof.
  intros Ht.
  destruct (pushed_past_snoc h d Ht) as (front & Hpast & Hroom & Hfull).
  pose proof (handleDataUpdate_present h d Ht) as Hp.
  pose proof (handleDataUpdate_future h d Ht) as Hf.
  rewrite (history_eta (handleDataUpdate d h)), Hpast, Hp, Hf, undo_snoc.
  cbn [past present future]. split_and!; try done.
  - destruct (decide (length (past h) < MAX_HISTORY)) as [Hlt|Hge].
    + by rewrite (Hroom Hlt).
    + rewrite Hfull by lia. apply suffix_drop.
  - intros Hlt. by rewrite (Hroom Hlt).
  - unfold canUndo. cbn [past]. rewrite length_app. cbn [length].
    apply Nat.ltb_lt. lia.
Qed.
End edits.

(** X4.  When a redo is available, an undo after it restores the whole
    history; the redo shows the first waiting snapshot, leaves an undo
    available and keeps the number of snapshots held. *)
Theorem undo_after_redo (h : History) :
  canRedo h = true →
  undo (redo h) = h ∧ canUndo (redo h) = true ∧
  Some (present (redo h)) = head (future h) ∧
  length (past (redo h)) + length (future (redo h))
    = length (past h) + length (future h).
Proof.
  unfold canRedo, canUndo. intros Hf%Nat.ltb_lt.
  destruct h as [pst d fut]. cbn [future] in Hf.
  destruct fut as [|d' fut]; [cbn in Hf; lia|].
  rewrite redo_cons, undo_snoc. cbn [past present future head].
  split_and!; try done.
  - apply Nat.ltb_lt. rewrite length_app. cbn [length]. lia.
  - rewrite length_app. cbn [length]. lia.
Qed.

Lemma undo_after_redo_witness :
  undo (redo (undo (handleDataUpdate (JArray []) sample_history)))
  = undo (handleDataUpdate (JArray []) sample_history).
Proof.
  apply (proj1 (undo_after_redo (undo (handleDataUpdate (JArray []) sample_history))
                  eq_refl)).
Defined.

(** X22.  Whatever [JsonGrid] and its cards handle, they reach the state of
    [App] only through its update function: meta data and error stay, and the
    history is either the same or has received one update, which one undo
    takes back to the document there was. *)
Theorem grid_events_only_push (B : JsStrings) (s : State) (ev : Event) :
  is_grid_event ev = true →
  let s' := step ev s in
  meta (app s') = meta (app s) ∧ error (app s') = error (app s) ∧
  (history (app s') = history (app s) ∨
   (truthy (file_data s) = true ∧
    present (undo (history (app s'))) = file_data s ∧
    future (undo (history (app s'))) = [file_data s'] ∧
    past (undo (history (app s'))) `suffix_of` past (history (app s)) ∧
    future (history (app s')) = [] ∧
    canUndo (history (app s')) = true)).
Proof.
  intros Hev s'. subst s'. unfold file_data.
  destruct (edit_step ev s Hev) as [->|[d ->]]; [by split_and!; try left|].
  cbn [set_history meta error history].
  split; [done|]. split; [done|].
  destruct (truthy (present (history (app s)))) eqn:Ht.
  - right.
    destruct (undo_push (history (app s)) d Ht) as (Hp & Hf & Hsuf & _ & Hcan).
    split; [done|]. split; [done|].
    rewrite (handleDataUpdate_present _ _ Ht).
    split; [done|]. split; [done|].
    split; [by apply handleDataUpdate_future|done].
  - left. by apply handleDataUpdate_null.
Qed.

Lemma grid_events_only_push_witness :
  meta (app (step (H:=sample_strings) (CardDelete 0) loaded_state))
  = meta (app loaded_state).
Proof.
  refine (proj1 (grid_events_only_push sample_strings loaded_state (CardDelete 0) _)).
  reflexivity.
Defined.

(** ** The detail modal *)

(** X23.  Saving the modal writes the new value at the path of the item the
    modal was opened on and nowhere else, records the update so that an undo
    brings the old document back, and closes the modal; the path of the grid
    is kept and nothing is logged. *)
Theorem modal_save_writes_value (s : State) (selected : SelectedItemState)
    (newData : JsonValue) :
  selectedItem (grid s) = Some selected →
  truthy (file_data s) = true →
  legal_path (file_data s) (fullPath selected) →
  let s' := handleModalSave newData s in
  file_data s' = setDeep (file_data s) (fullPath selected) newData ∧
  resolvePath (file_data s') (fullPath selected) = newData ∧
  (∀ Q, paths_diverge (fullPath selected) Q →
        resolvePath (file_data s') Q = resolvePath (file_data s) Q) ∧
  selectedItem (grid s') = None ∧
  path (grid s') = path (grid s) ∧
  console_errors s' = console_errors s ∧
  present (undo (history (app s'))) = file_data s.
Proof.
  intros Hsel Ht Hlegal s'. subst s'. unfold handleModalSave. rewrite Hsel.
  unfold file_data in *. cbn.
  rewrite (handleDataUpdate_present _ _ Ht).
  split; [done|]. split; [by apply resolvePath_setDeep_same|].
  split; [|split; [done|split; [done|split; [done|]]]].
  - intros Q HQ. by apply resolvePath_setDeep_diverge.
  - by destruct (undo_push (history (app s))
                   (setDeep (present (history (app s))) (fullPath selected) newData)
                   Ht) as (-> & _).
Qed.

Lemma modal_save_writes_value_witness :
  resolvePath (file_data (handleModalSave (JNumber 7) editing_state))
              [NIdx 0; NKey "id"]
  = JNumber 7.
Proof.
  refine (proj1 (proj2 (modal_save_writes_value editing_state
                          {| sel_data := JNumber 1; sel_name := NKey "id";
                             fullPath := [NIdx 0; NKey "id"] |}
                          (JNumber 7) _ _ _))).
  - reflexivity.
  - reflexivity.
  - solve_legal.
Defined.

(** X24.  The save of the modal does not check the shape of the root: with
    the source of the root level open, any value saved becomes the document,
    where the update function of the grid refuses a root that is not an array
    and logs an error.  A falsy value saved this way closes the grid, and
    further updates are ignored until an undo. *)
Theorem modal_save_skips_root_guard (s : State) (newData : JsonValue) :
  path (grid s) = [] → truthy (file_data s) = true →
  let s' := handleModalSave newData (openCurrentLevel s) in
  file_data s' = newData ∧ console_errors s' = console_errors s ∧
  present (undo (history (app s'))) = file_data s ∧
  (isArray newData = false →
     file_data (updateDataAtCurrentPath newData s) = file_data s ∧
     console_errors (updateDataAtCurrentPath newData s)
       = console_errors s ++ [root_guard_message]) ∧
  (truthy newData = false →
     parsedFile s' = None ∧
     ∀ d, handleDataUpdate d (history (app s')) = history (app s')).
Proof.
  intros Hpath Ht s'. subst s'.
  unfold handleModalSave, openCurrentLevel. cbn. rewrite Hpath.
  unfold file_data in *. cbn.
  rewrite (handleDataUpdate_present _ _ Ht).
  split; [done|]. split; [done|]. split; [|split].
  - by destruct (undo_push (history (app s)) newData Ht) as (-> & _).
  - intros Harr. unfold updateDataAtCurrentPath, file_data. rewrite Hpath. cbn.
    by rewrite Harr.
  - intros Hfalsy. split.
    + unfold parsedFile, file_data. cbn.
      rewrite (handleDataUpdate_present _ _ Ht), Hfalsy. by destruct (meta (app s)).
    + intros d. apply handleDataUpdate_null.
      by rewrite (handleDataUpdate_present _ _ Ht).
Qed.

Lemma modal_save_skips_root_guard_witness :
  file_data (handleModalSave JNull (openCurrentLevel loaded_state)) = JNull.
Proof.
  refine (proj1 (modal_save_skips_root_guard loaded_state JNull _ _));
    reflexivity.
Defined.

(** ** Font size and card body *)

Lemma handleWheel_range e fontSize :
  (8 ≤ fontSize ≤ 32)%Z →
  (8 ≤ handleWheel e fontSize ≤ 32)%Z ∧
  (Z.abs (handleWheel e fontSize - fontSize) ≤ 1)%Z.
Proof.
  intros Hr. unfold handleWheel.
  destruct (wheel_ctrlKey e); [|lia]. destruct (0 <? deltaY e)%Z; lia.
Qed.

(** X25.  The font size set by Ctrl+wheel starts at 16, changes by at most one
    pixel an event and never leaves the range from 8 to 32; wheel events
    without Ctrl do not change it, and scrolling one way only saturates at
    the bound. *)
Theorem font_size_stays_in_range (events : list WheelEvent) :
  (8 ≤ fontSize_after events ≤ 32)%Z ∧
  (∀ e, Z.abs (fontSize_after (events ++ [e]) - fontSize_after events) ≤ 1)%Z ∧
  (Forall (λ e, wheel_ctrlKey e = false) events → fontSize_after events = 16%Z) ∧
  (Forall (λ e, wheel_ctrlKey e = true ∧ (deltaY e ≤ 0)%Z) events →
     fontSize_after events = Z.min 32 (16 + Z.of_nat (length events))) ∧
  (Forall (λ e, wheel_ctrlKey e = true ∧ (0 < deltaY e)%Z) events →
     fontSize_after events = Z.max 8 (16 - Z.of_nat (length events))).
Proof.
  assert (∀ evs, (8 ≤ fontSize_after evs ≤ 32)%Z) as Hrange.
  { induction evs as [|e evs IH] using rev_ind; [unfold fontSize_after; cbn; lia|].
    unfold fontSize_after in *. rewrite foldl_app. cbn [foldl].
    by apply handleWheel_range. }
  split; [apply Hrange|]. split; [|split; [|split]].
  - intros e. unfold fontSize_after. rewrite foldl_app. cbn [foldl].
    apply handleWheel_range, Hrange.
  - induction events as [|e evs IH] using rev_ind; [done|].
    intros [Hevs He%Forall_inv]%Forall_app.
    unfold fontSize_after in *. rewrite foldl_app. cbn [foldl].
    rewrite (IH Hevs). unfold handleWheel. by rewrite He.
  - induction events as [|e evs IH] using rev_ind; [done|].
    intros [Hevs [Hc Hd]%Forall_inv]%Forall_app.
    unfold fontSize_after in *. rewrite foldl_app, length_app. cbn [foldl length].
    rewrite (IH Hevs). unfold handleWheel. rewrite Hc.
    replace (0 <? deltaY e)%Z with false by (symmetry; apply Z.ltb_ge; lia). lia.
  - induction events as [|e evs IH] using rev_ind; [done|].
    intros [Hevs [Hc Hd]%Forall_inv]%Forall_app.
    unfold fontSize_after in *. rewrite foldl_app, length_app. cbn [foldl length].
    rewrite (IH Hevs). unfold handleWheel. rewrite Hc.
    replace (0 <? deltaY e)%Z with true by (symmetry; apply Z.ltb_lt; lia). lia.
Qed.

Section card.
Context `{JsStrings}.

Lemma array_find_Some {A} (f : A → bool) (l : list A) x :
  array_find f l = Some x → x ∈ l ∧ f x = true.
Proof.
  unfold array_find. intros Hf. apply List.find_some in Hf as [Hin Hfx].
  split; [by apply list_elem_of_In|done].
Qed.

Lemma headerLine_sound shown key fields v :
  headerLine shown key fields = StyledLine v →
  shown = true ∧ truthy v = true ∧
  ∃ k, (k, v) ∈ fields ∧ toLowerCase k = toLowerCase key.
Proof.
  unfold headerLine. destruct shown; [|done].
  destruct (array_find _ _) as [k|] eqn:Hfind; [|done].
  apply array_find_Some in Hfind as [Hin Hk%String.eqb_eq].
  destruct (String.eqb k ""); [done|].
  destruct (truthy _) eqn:Ht; [|by destruct (get_prop _ _)]. intros [= <-].
  split; [done|]. split; [done|]. exists k. split; [|done].
  cbn in *. clear Hk.
  induction fields as [|[k' v'] fields IH]; [by apply elem_of_nil in Hin|].
  cbn in *. destruct (String.eqb_spec k' k) as [->|Hne]; [by left|].
  right. apply IH; [|done]. by apply elem_of_cons in Hin as [?|?].
Qed.

Lemma headerLine_off key fields : headerLine false key fields = NoLine.
Proof. done. Qed.
End card.

(** X26.  The body of a card shows at most six entries of an array or an
    object, the first six, and counts the others: shown and counted entries
    add up to the entries of the value, and the count is displayed exactly
    when there are more than six.  A header line is styled only when its
    setting is on and the value under a key equal to the configured key up to
    case is truthy. *)
Theorem card_body_accounts_for_every_entry (B : JsStrings) (st : Settings)
    (data : JsonValue) :
  let body := renderBody st data in
  shown_entries body ≤ 6 ∧
  shown_entries body + counted_entries body = length (itemize data) ∧
  (counted_entries body = 0 ↔ length (itemize data) ≤ 6) ∧
  (∀ title subtitle bodyKeys remainingCount,
     body = BodyObject title subtitle bodyKeys remainingCount →
     bodyKeys = take 6 (String_of_name ∘ name <$> itemize data) ∧
     remainingCount ≠ Some 0 ∧
     (∀ v, title = StyledLine v →
           showTitle st = true ∧ truthy v = true ∧
           ∃ item, item ∈ itemize data ∧ value item = v ∧
             toLowerCase (String_of_name (name item)) = toLowerCase (titleKey st)) ∧
     (∀ v, subtitle = StyledLine v →
           showSubtitle st = true ∧ truthy v = true ∧
           ∃ item, item ∈ itemize data ∧ value item = v ∧
             toLowerCase (String_of_name (name item))
             = toLowerCase (subtitleKey st))) ∧
  (∀ items more,
     body = BodyArray items more →
     items = take 6 (value <$> itemize data) ∧ more ≠ Some 0).
Proof.
  assert (∀ shown key fields v,
            headerLine shown key fields = StyledLine v →
            shown = true ∧ truthy v = true ∧
            ∃ item, item ∈ itemize (JObject fields) ∧ value item = v ∧
              toLowerCase (String_of_name (name item)) = toLowerCase key) as Hline.
  { intros shown key fields v (He & Ht & k & Hin & Hk)%headerLine_sound.
    split; [done|]. split; [done|].
    exists {| name := NKey k; value := v |}. split; [|done].
    cbn. apply list_elem_of_fmap. by exists (k, v). }
  intros body. subst body. unfold renderBody, itemize.
  destruct data as [| |b|n|str|xs|fields];
    cbn [truthy negb shown_entries counted_entries length default];
    try (split_and!; try done; try lia; by (split; intros; lia)).
  - destruct (negb b); cbn [length];
      split_and!; try done; try lia; by (split; intros; lia).
  - destruct (negb (negb _)); cbn [length];
      split_and!; try done; try lia; by (split; intros; lia).
  - destruct (negb (negb _)); cbn [length];
      split_and!; try done; try lia; by (split; intros; lia).
  - cbv zeta. rewrite length_take, length_imap.
    assert (∀ k, take 6 xs
                 = take 6 (value <$> imap (λ idx val, {| name := NIdx (k + idx); value := val |}) xs))
      as Hvalues.
    { generalize 6. induction xs as [|x xs IH]; intros m k; [by destruct m|].
      destruct m; [done|]. cbn. f_equal.
      rewrite (IH m (S k)). do 2 f_equal. apply imap_ext. intros i y _. cbn.
      do 2 f_equal. lia. }
    destruct (Nat.ltb_spec 6 (length xs)); cbn [default]; unfold id;
      split_and!; try done; try lia.
    + intros items more [= <- <-]. split; [apply (Hvalues 0)|intros Heq%(inj Some); lia].
    + intros items more [= <- <-]. split; [apply (Hvalues 0)|done].
  - cbv zeta. rewrite !length_take, !length_fmap.
    destruct (Nat.ltb_spec 0 (0 `max` (length fields - 6 `min` length fields)));
      cbn [default]; unfold id; split_and!; try done; try lia.
    + intros title subtitle bodyKeys remainingCount [= <- <- <- <-].
      split_and!; [by rewrite <-list_fmap_compose|intros Heq%(inj Some);
         change (length fields - Nat.min 6 (length fields) = 0) in Heq; lia| |];
        intros v Hv; by apply Hline in Hv.
    + intros title subtitle bodyKeys remainingCount [= <- <- <- <-].
      split_and!; [by rewrite <-list_fmap_compose|done| |];
        intros v Hv; by apply Hline in Hv.
Qed.

(** ** Uploading a file *)

Lemma processJsonData_setError json name size e app :
  load_accepted json →
  processJsonData json name size (setError e app) = processJsonData json name size app.
Proof.
  unfold load_accepted, processJsonData. by destruct (dataToDisplay json).
Qed.

Lemma processJsonData_rejected json name size app :
  ¬ load_accepted json →
  processJsonData json name size app = setError (Some load_error_message) app.
Proof.
  unfold load_accepted, processJsonData. destruct (dataToDisplay json); [done|].
  intros []. done.
Qed.

(** X27.  A file whose text does not parse opens the raw editor with the text,
    name and size of the file, clears the error and leaves meta data and
    history alone; saving a value from the raw editor then has the effect of
    the upload of a file of that name and size whose text parses to that
    value. *)
Theorem repaired_upload_matches_direct_upload
    (JSON_parse : string → option JsonValue) (u : Uploader)
    (name : string) (size : N) (text text' : string) (newData : JsonValue) :
  JSON_parse text = None → JSON_parse text' = Some newData →
  let broken := handleFileUpload JSON_parse name size (ReadLoaded text) u in
  rawFileState broken = Some (mkRawFileState text name size) ∧
  meta (uploader_app broken) = meta (uploader_app u) ∧
  history (uploader_app broken) = history (uploader_app u) ∧
  error (uploader_app broken) = None ∧
  handleRawSave newData broken
  = handleFileUpload JSON_parse name size (ReadLoaded text') u.
Proof.
  intros Hbad Hgood broken. subst broken.
  unfold handleFileUpload, handleRawSave. rewrite Hbad, Hgood. by cbn.
Qed.

Lemma repaired_upload_matches_direct_upload_witness :
  handleRawSave (JArray [JObject []])
    (handleFileUpload sample_parse "cards.json" 2%N (ReadLoaded "[{") initialUploader)
  = handleFileUpload sample_parse "cards.json" 2%N (ReadLoaded "[{}]") initialUploader.
Proof.
  refine (proj2 (proj2 (proj2 (proj2
    (repaired_upload_matches_direct_upload sample_parse initialUploader
       "cards.json" 2%N "[{" "[{}]" (JArray [JObject []]) _ _)))));
    reflexivity.
Defined.

(** X28.  An upload replaces the document only when the file was read, its
    text parsed and the value was accepted; the history then starts afresh
    on the array to display.  In every other case meta data and history
    are kept, and the user gets either an error or the raw editor, the raw
    editor exactly for a text that does not parse. *)
Theorem failed_upload_keeps_document
    (JSON_parse : string → option JsonValue) (u : Uploader)
    (name : string) (size : N) (result : ReadResult) :
  let u' := handleFileUpload JSON_parse name size result u in
  (∀ text json, result = ReadLoaded text → JSON_parse text = Some json →
                load_accepted json →
     meta (uploader_app u') = Some (mkMeta name size) ∧
     history (uploader_app u')
       = {| past := []; present := JArray (dataToDisplay json); future := [] |} ∧
     error (uploader_app u') = None ∧ rawFileState u' = None) ∧
  ((∀ text json, result = ReadLoaded text → JSON_parse text = Some json →
                 ¬ load_accepted json) →
     meta (uploader_app u') = meta (uploader_app u) ∧
     history (uploader_app u') = history (uploader_app u) ∧
     (is_Some (error (uploader_app u')) ∨ is_Some (rawFileState u')) ∧
     (is_Some (rawFileState u') ↔
        ∃ text, result = ReadLoaded text ∧ JSON_parse text = None)).
Proof.
  intros u'. subst u'. unfold handleFileUpload. split.
  - intros text json -> -> Hok. cbn.
    rewrite processJsonData_setError by done.
    unfold processJsonData, load_accepted in *.
    by destruct (dataToDisplay json).
  - intros Hfail. destruct result as [text|]; cbn.
    + destruct (JSON_parse text) as [json|] eqn:Hparse; cbn.
      * rewrite processJsonData_rejected by by eapply Hfail.
        cbn. split_and!; try done; [left; by eexists|].
        split; [by intros [? [=]]|]. intros (t & [= <-] & Hnone). congruence.
      * split_and!; try done; [right; by eexists|].
        split; [by exists text|by eexists].
    + split_and!; try done; [left; by eexists|].
      split; [by intros [? [=]]|]. by intros (t & [=] & _).
Qed.
